(** * workerd-mock-fetch: the route resolver and dispatcher of [src/template.ts]

    A shallow embedding of the test-time dispatch shim: the recursive walk of
    the route table ([findRouteFile]), segment-wise matching
    ([matchesDynamicRoute]), parameter extraction ([extractParams]), response
    normalisation ([convertToResponse]), the listing of all route paths
    ([extractAllRoutePaths]) and the entry point ([workerdFetch], the default
    value of the template's [__FETCH_FUNCTION_NAME__] placeholder).

    JavaScript strings are modelled by [string] (sequences of 8-bit code
    units), objects used as dictionaries by [gmap string _], arrays by
    lists. *)

From Stdlib Require Import Ascii String.
From stdpp Require Import base option list strings gmap sorting pretty.

Local Open Scope string_scope.

(** ** JavaScript string primitives used by the template *)

Module Js.

(** [s.split(sep)] for a one-character separator: never empty, and
    [split sep ""] is [[""]]. *)
Fixpoint split (sep : ascii) (s : string) : list string :=
  match s with
  | EmptyString => [EmptyString]
  | String c s' =>
      if Ascii.eqb c sep then EmptyString :: split sep s'
      else match split sep s' with
           | [] => [String c EmptyString]
           | x :: xs => String c x :: xs
           end
  end.

(** Truthiness of a string: [""] is the only falsy one. *)
Definition truthy_string (s : string) : bool :=
  match s with EmptyString => false | String _ _ => true end.

(** [arr.filter(Boolean)] on an array of strings. *)
Definition filter_Boolean (l : list string) : list string :=
  List.filter truthy_string l.

(** [s.startsWith(c)] for a one-character prefix. *)
Definition startsWith (c : ascii) (s : string) : bool :=
  match s with
  | EmptyString => false
  | String c' _ => Ascii.eqb c' c
  end.

(** [s.slice(1)]. *)
Definition slice1 (s : string) : string :=
  match s with EmptyString => EmptyString | String _ s' => s' end.

(** [s.replace(/\/$/, '')]: the pattern has no [m] flag, so [$] is the end
    of the input and at most one trailing slash goes. *)
Fixpoint replace_trailing_slash (s : string) : string :=
  match s with
  | EmptyString => EmptyString
  | String c s' =>
      match s' with
      | EmptyString => if Ascii.eqb c "/"%char then EmptyString else s
      | String _ _ => String c (replace_trailing_slash s')
      end
  end.

(** [s || d] on strings. *)
Definition or_else (s d : string) : string :=
  if truthy_string s then s else d.

(** [arr.join(sep)]. *)
Fixpoint join (sep : string) (l : list string) : string :=
  match l with
  | [] => EmptyString
  | [x] => x
  | x :: xs => x ++ sep ++ join sep xs
  end.

(** Last code unit of a string is [c]. *)
Fixpoint endsWith (c : ascii) (s : string) : bool :=
  match s with
  | EmptyString => false
  | String c' EmptyString => Ascii.eqb c' c
  | String _ s' => endsWith c s'
  end.

(** [s.includes(c)] for a one-character needle. *)
Fixpoint includes (c : ascii) (s : string) : bool :=
  match s with
  | EmptyString => false
  | String c' s' => Ascii.eqb c' c || includes c s'
  end.

End Js.

(** ** [path.posix.join] of the Node.js platform library

    The template imports [path] from the platform; the function is not part
    of the repository.  Node joins the non-empty arguments with ["/"] and
    normalises the result: empty and ["."] segments are dropped, a [".."]
    segment removes the segment before it (or is kept, for a relative path,
    when there is none to remove), a leading and a trailing slash are kept,
    and the empty result is ["."]. *)

Module Path.

(** One step of Node's [normalizeString], on the stack of segments kept so
    far (most recent first). *)
Definition push_segment (allowAboveRoot : bool) (stack : list string) (seg : string)
  : list string :=
  if decide (seg = "" ∨ seg = ".") then stack
  else if decide (seg = "..") then
    match stack with
    | top :: rest =>
        if decide (top = "..") then
          (if allowAboveRoot then seg :: stack else stack)
        else rest
    | [] => if allowAboveRoot then [seg] else []
    end
  else seg :: stack.

Definition normalizeString (p : string) (allowAboveRoot : bool) : string :=
  Js.join "/" (rev (fold_left (push_segment allowAboveRoot) (Js.split "/"%char p) [])).

Definition normalize (p : string) : string :=
  if decide (p = "") then "."
  else
    let isAbsolute := Js.startsWith "/"%char p in
    let trailingSeparator := Js.endsWith "/"%char p in
    let p' := normalizeString p (negb isAbsolute) in
    if decide (p' = "") then
      (if isAbsolute then "/" else if trailingSeparator then "./" else ".")
    else
      let p'' := if trailingSeparator then p' ++ "/" else p' in
      if isAbsolute then "/" ++ p'' else p''.

(** [path.posix.join(a, b)] for the two-argument calls of the template. *)
Definition join (a b : string) : string :=
  match Js.truthy_string a, Js.truthy_string b with
  | false, false => "."
  | true, false => normalize a
  | false, true => normalize b
  | true, true => normalize (a ++ "/" ++ b)
  end.

End Path.

(** ** The route table *)

(** [RouteConfigEntry] of the router: the template reads [path], [file] and
    [children] only.  [path] and [children] are optional. *)
#[local] Unset Elimination Schemes.
Inductive RouteConfigEntry : Type :=
  mkRoute {
    path : option string;
    file : string;
    children : option (list RouteConfigEntry)
  }.
#[local] Set Elimination Schemes.

(** The object returned by [findRouteFile]. *)
Record RouteInfo : Type := mkRouteInfo {
  ri_file : string;
  ri_routePath : string
}.

(** [route.path || ""]. *)
Definition path_or_empty (route : RouteConfigEntry) : string :=
  match path route with
  | Some p => Js.or_else p ""
  | None => ""
  end.

(** [path.posix.join(parentPath, route.path || "").replace(/\/$/, '') || "/"]. *)
Definition fullPath_of (parentPath : string) (route : RouteConfigEntry) : string :=
  Js.or_else (Js.replace_trailing_slash (Path.join parentPath (path_or_empty route))) "/".

(** [p === "/" ? "/" : p.replace(/\/$/, '')]. *)
Definition normalizePath (p : string) : string :=
  if decide (p = "/") then "/" else Js.replace_trailing_slash p.

(** ** Segment-wise matching *)

(** The body of the [for] loop of [matchesDynamicRoute], over the remaining
    indices; [routeSegments[i]] is [None] for JavaScript's [undefined]. *)
Fixpoint matchesDynamicRoute_loop (routeSegments targetSegments : list string)
    (indices : list nat) : bool :=
  match indices with
  | [] => true
  | i :: rest =>
      let routeSegment := routeSegments !! i in
      let targetSegment := targetSegments !! i in
      if from_option (Js.startsWith ":"%char) false routeSegment then
        matchesDynamicRoute_loop routeSegments targetSegments rest
      else if bool_decide (routeSegment ≠ targetSegment) then false
      else matchesDynamicRoute_loop routeSegments targetSegments rest
  end.

Definition matchesDynamicRoute (routePath targetPath : string) : bool :=
  let routeSegments := Js.filter_Boolean (Js.split "/"%char routePath) in
  let targetSegments := Js.filter_Boolean (Js.split "/"%char targetPath) in
  if bool_decide (length routeSegments ≠ length targetSegments) then false
  else matchesDynamicRoute_loop routeSegments targetSegments
         (seq 0 (length routeSegments)).

(** ** The resolver *)

(** First non-null result of [f] over a list, in order. *)
Fixpoint first_result {A B : Type} (f : A → option B) (l : list A) : option B :=
  match l with
  | [] => None
  | x :: rest =>
      match f x with
      | Some r => Some r
      | None => first_result f rest
      end
  end.

(** The test of line 45 on a node of full path [fullPath]. *)
Definition route_matches (targetPath fullPath : string) : bool :=
  let normalizedFullPath := normalizePath fullPath in
  let normalizedTargetPath := normalizePath targetPath in
  bool_decide (normalizedFullPath = normalizedTargetPath)
  || matchesDynamicRoute normalizedFullPath normalizedTargetPath.

(** One iteration of the [for] loop of [findRouteFile]: the node itself, then
    (only if it did not match) its children. *)
Fixpoint findRouteFile_route (targetPath parentPath : string)
    (route : RouteConfigEntry) : option RouteInfo :=
  let fullPath := fullPath_of parentPath route in
  if route_matches targetPath fullPath then
    Some (mkRouteInfo (file route) (normalizePath fullPath))
  else
    match children route with
    | Some ch => first_result (findRouteFile_route targetPath fullPath) ch
    | None => None
    end.

Definition findRouteFile (targetPath : string) (routeConfig : list RouteConfigEntry)
    (parentPath : string) : option RouteInfo :=
  first_result (findRouteFile_route targetPath parentPath) routeConfig.

(** ** The nodes of the table in depth-first pre-order *)

(** A node and then its descendants, each with its full path and file. *)
Fixpoint route_nodes (parentPath : string) (route : RouteConfigEntry)
    : list (string * string) :=
  let fullPath := fullPath_of parentPath route in
  (fullPath, file route) ::
    match children route with
    | Some ch => flat_map (route_nodes fullPath) ch
    | None => []
    end.

Definition table_nodes (parentPath : string) (routeConfig : list RouteConfigEntry)
    : list (string * string) :=
  flat_map (route_nodes parentPath) routeConfig.

(** The result object built from a node. *)
Definition info_of_node (n : string * string) : RouteInfo :=
  mkRouteInfo n.2 (normalizePath n.1).

(** ** Parameter extraction *)

(** [params[paramName] = v] on an object created by the literal [{}]: an
    ordinary own property, except for the name [__proto__], which is an
    accessor of [Object.prototype] whose setter ignores a string, so that no
    own property appears. *)
Definition set_property (paramName v : string) (params : gmap string string)
    : gmap string string :=
  if decide (paramName = "__proto__") then params else <[paramName := v]> params.

(** The body of the [for] loop of [extractParams] at index [i]. *)
Definition extractParams_step (routeSegments pathSegments : list string)
    (params : gmap string string) (i : nat) : gmap string string :=
  let routeSegment := routeSegments !! i in
  let pathSegment := pathSegments !! i in
  match routeSegment with
  | Some seg =>
      if Js.startsWith ":"%char seg then
        let paramName := Js.slice1 seg in
        set_property paramName (Js.or_else (default "" pathSegment) "") params
      else params
  | None => params
  end.

Definition extractParams (routePath actualPath : string) : gmap string string :=
  let routeSegments := Js.filter_Boolean (Js.split "/"%char routePath) in
  let pathSegments := Js.filter_Boolean (Js.split "/"%char actualPath) in
  fold_left (extractParams_step routeSegments pathSegments)
    (seq 0 (length routeSegments)) ∅.

(** ** Listing every route path *)

(** [arr.sort()] without a comparator on an array of strings: ascending by
    code units.  The order is total and antisymmetric, so the result does not
    depend on the sorting algorithm. *)
Definition Array_sort (l : list string) : list string := merge_sort String.le l.

(** The body of the loop of [extractAllRoutePaths] for one route: its path,
    then the (sorted) result of the recursive call on its children. *)
Fixpoint extractAllRoutePaths_route (parentPath : string) (route : RouteConfigEntry)
    : list string :=
  let fullPath := fullPath_of parentPath route in
  fullPath ::
    match children route with
    | Some ch => Array_sort (flat_map (extractAllRoutePaths_route fullPath) ch)
    | None => []
    end.

Definition extractAllRoutePaths (routeConfig : list RouteConfigEntry)
    (parentPath : string) : list string :=
  Array_sort (flat_map (extractAllRoutePaths_route parentPath) routeConfig).

(** ** JavaScript values returned by handlers *)

(** Plain data: what a handler returns when it does not return a [Response].
    Numbers are the integers; an object is the list of its own enumerable
    properties in enumeration order, with distinct keys; functions are
    opaque. *)
#[local] Unset Elimination Schemes.
Inductive value : Type :=
  | VUndefined
  | VNull
  | VBool (b : bool)
  | VNumber (n : Z)
  | VString (s : string)
  | VFunction (id : nat)
  | VArray (elems : list value)
  | VObject (props : list (string * value)).
#[local] Set Elimination Schemes.

(** A [Response] that exists, represented by the body and the [init] it was
    built from. *)
Record Response : Type := Response_new {
  response_body : option string;
  response_init : value
}.

(** What a handler returns: [data instanceof Response] or not. *)
Inductive HandlerResult : Type :=
  | ReturnsResponse (r : Response)
  | ReturnsValue (data : value).

(** What is thrown: the template's own [new Error(message)], the [TypeError]
    and [RangeError] of the platform, or whatever a handler throws. *)
Inductive Exception : Type :=
  | Error (message : string)
  | TypeError (message : string)
  | RangeError (message : string)
  | Thrown (what : HandlerResult).

(** The outcome of a call or of an awaited promise. *)
Inductive Completion (A : Type) : Type :=
  | Returns (a : A)
  | Throws (e : Exception).
Arguments Returns {A}.
Arguments Throws {A}.

(** [v !== undefined]. *)
Definition is_defined (v : value) : bool :=
  match v with VUndefined => false | _ => true end.

(** Truthiness of a value. *)
Definition truthy (v : value) : bool :=
  match v with
  | VUndefined | VNull => false
  | VBool b => b
  | VNumber n => negb (n =? 0)%Z
  | VString s => Js.truthy_string s
  | VFunction _ | VArray _ | VObject _ => true
  end.

(** [typeof v === 'object']. *)
Definition typeof_object (v : value) : bool :=
  match v with
  | VNull | VArray _ | VObject _ => true
  | _ => false
  end.

(** Lookup in a property list. *)
Fixpoint assoc {A : Type} (k : string) (props : list (string * A)) : option A :=
  match props with
  | [] => None
  | (k', x) :: rest => if decide (k' = k) then Some x else assoc k rest
  end.

(** [k in v] for an object [v], for the names the template asks about, which
    no built-in prototype defines. *)
Definition has_property (k : string) (v : value) : bool :=
  match v with
  | VObject props => bool_decide (is_Some (assoc k props))
  | _ => false
  end.

(** [v.k] for the same names: a missing property, and any property of a
    primitive, array or function, is [undefined]. *)
Definition get_property (v : value) (k : string) : value :=
  match v with
  | VObject props => default VUndefined (assoc k props)
  | _ => VUndefined
  end.

(** [v?.k]: [undefined] when [v] is [null] or [undefined]. *)
Definition get_property_opt (v : value) (k : string) : value :=
  match v with
  | VUndefined | VNull => VUndefined
  | _ => get_property v k
  end.

(** [a || b] on values. *)
Definition value_or (a b : value) : value := if truthy a then a else b.

(** *** A [JSON.stringify] for the examples *)

Definition dquote : string := String "034"%char EmptyString.

Definition hex_digit (n : N) : ascii :=
  ascii_of_N (if (n <? 10)%N then 48 + n else 87 + n).

(** The escape of one code unit inside a JSON string. *)
Definition JSON_escape (c : ascii) : string :=
  let n := N_of_ascii c in
  if (n =? 34)%N then "\" ++ dquote
  else if (n =? 92)%N then "\\"
  else if (n =? 8)%N then "\b"
  else if (n =? 9)%N then "\t"
  else if (n =? 10)%N then "\n"
  else if (n =? 12)%N then "\f"
  else if (n =? 13)%N then "\r"
  else if (n <? 32)%N then
    "\u00" ++ String (hex_digit (n / 16)) (String (hex_digit (n mod 16)) EmptyString)
  else String c EmptyString.

Fixpoint JSON_escape_string (s : string) : string :=
  match s with
  | EmptyString => EmptyString
  | String c s' => JSON_escape c ++ JSON_escape_string s'
  end.

Definition JSON_quote (s : string) : string :=
  dquote ++ JSON_escape_string s ++ dquote.

(** The text [JSON.stringify] gives for a value whose numbers are safe
    integers (below 2^53 in magnitude) and whose objects have no [toJSON]
    method; [None] is the result [undefined].  It serves the examples only:
    the template is embedded over the platform's own function. *)
Fixpoint example_JSON_text (v : value) : option string :=
  match v with
  | VUndefined | VFunction _ => None
  | VNull => Some "null"
  | VBool b => Some (if b then "true" else "false")
  | VNumber n => Some (pretty n)
  | VString s => Some (JSON_quote s)
  | VArray elems =>
      Some ("[" ++ Js.join "," (map (λ x, default "null" (example_JSON_text x)) elems)
                ++ "]")
  | VObject props =>
      Some ("{" ++ Js.join ","
                   (omap (λ kv, match kv with
                                | (k, x) =>
                                    (λ s, JSON_quote k ++ ":" ++ s) <$> example_JSON_text x
                                end) props) ++ "}")
  end.

Definition example_JSON_stringify (v : value) : Completion (option string) :=
  Returns (example_JSON_text v).

(** A [Response] constructor for the examples.  It does what the platform
    does for an [init] whose status is an integer and whose status text and
    headers are absent or valid: a status outside 200..599 is a
    [RangeError], a body with one of the statuses 204, 205 and 304 is a
    [TypeError].  A status of another kind does not occur in the examples
    and is refused. *)
Definition example_new_Response (body : option string) (init : value)
    : Completion Response :=
  match get_property init "status" with
  | VUndefined => Returns (Response_new body init)
  | VNumber n =>
      if bool_decide (200 ≤ n ≤ 599)%Z then
        if bool_decide (n ∈ [204; 205; 304]%Z) && bool_decide (is_Some body)
        then Throws (TypeError "Response with null body status cannot have body")
        else Returns (Response_new body init)
      else Throws (RangeError "The status provided is outside the range [200, 599]")
  | _ => Throws (RangeError "The status provided is not an integer")
  end.

(** ** Response normalisation *)

Section Normalisation.

(** The platform: [JSON.stringify], whose result [None] is [undefined] and
    which throws what a [toJSON] method throws, and the constructor
    [new Response(body, init)], which throws for the arguments it refuses (a
    status outside 200..599, a body with a status that allows none, an
    invalid status text or header). *)
Variable JSON_stringify : value → Completion (option string).
Variable new_Response : option string → value → Completion Response.

(** [x !== undefined ? JSON.stringify(x) : undefined]. *)
Definition stringify_defined (x : value) : Completion (option string) :=
  if is_defined x then JSON_stringify x else Returns None.

Definition convertToResponse (data : HandlerResult) : Completion Response :=
  match data with
  | ReturnsResponse r => Returns r
  | ReturnsValue data =>
      if truthy data && typeof_object data && has_property "init" data then
        let responseData := data in
        match stringify_defined (get_property responseData "data") with
        | Throws e => Throws e
        | Returns body =>
            let init := get_property responseData "init" in
            new_Response body
              (VObject [("status", value_or (get_property_opt init "status") (VNumber 200));
                        ("statusText", get_property_opt init "statusText");
                        ("headers", get_property_opt init "headers")])
        end
      else
        match stringify_defined data with
        | Throws e => Throws e
        | Returns body =>
            new_Response body
              (VObject [("status", VNumber 200);
                        ("headers",
                         VObject [("Content-Type", VString "application/json")])])
        end
  end.

End Normalisation.

(** ** The dispatcher *)

(** A [Request] supplied by the caller; the template reads its [url] and its
    [method]. *)
Record InputRequest : Type := mkInputRequest {
  input_url : string;
  input_method : string
}.

(** [input: string | Request]. *)
Inductive Input : Type :=
  | InputString (s : string)
  | InputReq (r : InputRequest).

(** [WorkerdRequestInit]: the optional [method] and [params], and the other
    fields of [RequestInit] (headers, body, ...). *)
Record WorkerdRequestInit : Type := mkInit {
  init_method : option string;
  init_params : option (gmap string string);
  init_other : list (string * value)
}.

(** A [Request] built by the template, represented by the arguments of its
    constructor: [new Request(info, { method, ...other })]. *)
Record Request : Type := Request_new {
  request_info : string + InputRequest;
  request_method : string;
  request_other : list (string * value)
}.

(** Parameter bags are objects: a value of type [loc] is a reference to one,
    and the store holds the object behind each reference. *)
Definition loc : Type := positive.

(** [TestContext]. *)
Record TestContext (Env : Type) : Type := mkTestContext {
  cloudflare_env : Env;
  cloudflare_ctx : value;
  context_params : loc
}.
Arguments mkTestContext {Env}.
Arguments cloudflare_env {Env}.
Arguments cloudflare_ctx {Env}.
Arguments context_params {Env}.

(** The argument [{ request, params, context }] of a handler. *)
Record HandlerArgs (Env : Type) : Type := mkHandlerArgs {
  args_request : Request;
  args_params : loc;
  args_context : TestContext Env
}.
Arguments mkHandlerArgs {Env}.
Arguments args_request {Env}.
Arguments args_params {Env}.
Arguments args_context {Env}.

(** A handler: a function of the store of parameter bags and of its
    argument. *)
Definition Handler (Env : Type) : Type :=
  gmap loc (gmap string string) → HandlerArgs Env → Completion HandlerResult.

(** An export of a route module. *)
Inductive Export (Env : Type) : Type :=
  | ExportFunction (h : Handler Env)
  | ExportValue (v : value).
Arguments ExportFunction {Env}.
Arguments ExportValue {Env}.

(** A loaded module: its exports, in the order of [Object.keys]. *)
Definition RouteModule (Env : Type) : Type := list (string * Export Env).

(** [!handler] for [handler = mod.loader] or [mod.action]. *)
Definition is_falsy_export {Env : Type} (handler : option (Export Env)) : bool :=
  match handler with
  | None => true
  | Some (ExportValue v) => negb (truthy v)
  | Some (ExportFunction _) => false
  end.

(** [params = {}] as a default parameter: the call [createTestContext(p)]. *)
Definition createTestContext {Env : Type} (env_import : Env) (params : loc)
    : TestContext Env :=
  mkTestContext env_import (VObject []) params.

(** A handler that has been selected, with the argument and the store it is
    about to be called on. *)
Record HandlerCall (Env : Type) : Type := mkHandlerCall {
  call_routeInfo : RouteInfo;
  call_handler : Export Env;
  call_args : HandlerArgs Env;
  call_store : gmap loc (gmap string string)
}.
Arguments mkHandlerCall {Env}.
Arguments call_routeInfo {Env}.
Arguments call_handler {Env}.
Arguments call_args {Env}.
Arguments call_store {Env}.

(** [await handler(args)]. *)
Definition call_export {Env : Type} (handler : Export Env)
    (σ : gmap loc (gmap string string)) (args : HandlerArgs Env)
    : Completion HandlerResult :=
  match handler with
  | ExportFunction h => h σ args
  | ExportValue _ => Throws (TypeError "handler is not a function")
  end.

Section Dispatcher.

Context {Env : Type}.

(** The placeholders of the template, filled in by the plugin. *)
Variable routes : list RouteConfigEntry.
Variable __ENV_IMPORT__ : Env.
Variable __BASE_URL__ : string.

(** The platform: dynamic [import()], whose failure carries the text of the
    error, [new URL(u).pathname] on the url of a [Request], and the two
    functions of the normalisation. *)
Variable import : string → RouteModule Env + string.
Variable URL_pathname : string → string.
Variable JSON_stringify : value → Completion (option string).
Variable new_Response : option string → value → Completion Response.

(** Lines 187-197: the url and the method. *)
Definition url_of (input : Input) : string :=
  match input with
  | InputString s => s
  | InputReq r => URL_pathname (input_url r)
  end.

Definition method_of (input : Input) (init : WorkerdRequestInit) : string :=
  match input with
  | InputString _ => Js.or_else (default "" (init_method init)) "GET"
  | InputReq r =>
      Js.or_else (Js.or_else (input_method r) (default "" (init_method init))) "GET"
  end.

(** Line 200: [url.split('?')[0] || '/']. *)
Definition targetPath_of (url : string) : string :=
  Js.or_else (default "" (Js.split "?"%char url !! 0)) "/".

(** Lines 225-226. *)
Definition isGetMethod (method : string) : bool :=
  bool_decide (method = "GET") || bool_decide (method = "HEAD").

Definition select_handler (method : string) (mod_ : RouteModule Env)
    : option (Export Env) :=
  if isGetMethod method then assoc "loader" mod_ else assoc "action" mod_.

(** Lines 236-248: [{ method, ...requestInit }], where [requestInit] still
    has the [method] of [init] when [init] has one. *)
Definition build_request (input : Input) (url method : string)
    (init : WorkerdRequestInit) : Request :=
  let info :=
    match input with
    | InputString _ => inl (__BASE_URL__ ++ url)
    | InputReq r => inr r
    end in
  Request_new info (default method (init_method init)) (init_other init).

(** Lines 187-256: everything up to the call of the handler.  The merged
    bag [allParams] is one new object, at a reference that is fresh for
    the store. *)
Definition prepare_call (input : Input) (init : WorkerdRequestInit)
    (σ : gmap loc (gmap string string)) : Completion (HandlerCall Env) :=
  let url := url_of input in
  let method := method_of input init in
  let targetPath := targetPath_of url in
  let additionalParams := default ∅ (init_params init) in
  match findRouteFile targetPath routes "" with
  | None =>
      let availableRoutes := extractAllRoutePaths routes "" in
      Throws (Error ("Could not find route for path: " ++ targetPath
                     ++ ". Available routes: " ++ Js.join ", " availableRoutes))
  | Some routeInfo =>
      let routePath := Path.join "~" (ri_file routeInfo) in
      match import routePath with
      | inr error =>
          Throws (Error ("Failed to import route module: " ++ routePath
                         ++ ". Error: " ++ error))
      | inl mod_ =>
          let handler := select_handler method mod_ in
          (* [if (!handler) throw ...] *)
          match (if is_falsy_export handler then None else handler) with
          | None =>
              let availableExports := Js.join ", " (map fst mod_) in
              Throws (Error ("No " ++ (if isGetMethod method then "loader" else "action")
                             ++ " found for route: " ++ targetPath
                             ++ " (method: " ++ method
                             ++ "). Available exports: " ++ availableExports))
          | Some handler =>
              let request := build_request input url method init in
              let routeParams := extractParams (ri_routePath routeInfo) targetPath in
              let allParams := additionalParams ∪ routeParams in
              let l := fresh (dom σ) in
              let context := createTestContext __ENV_IMPORT__ l in
              Returns (mkHandlerCall routeInfo handler
                         (mkHandlerArgs request l context)
                         (<[l := allParams]> σ))
          end
      end
  end.

(** The exported function: the handler is called and its result converted. *)
Definition __FETCH_FUNCTION_NAME__ (input : Input) (init : WorkerdRequestInit)
    (σ : gmap loc (gmap string string)) : Completion Response :=
  match prepare_call input init σ with
  | Throws e => Throws e
  | Returns c =>
      match call_export (call_handler c) (call_store c) (call_args c) with
      | Returns result => convertToResponse JSON_stringify new_Response result
      | Throws e => Throws e
      end
  end.

End Dispatcher.

(** ** Vocabulary of the statements *)

(** The non-empty segments of a path: [p.split('/').filter(Boolean)]. *)
Definition segments (p : string) : list string :=
  Js.filter_Boolean (Js.split "/"%char p).

(** One position of the matching loop: a route segment that starts with the
    marker matches anything, another one only itself. *)
Definition segment_matches (routeSegment targetSegment : string) : bool :=
  Js.startsWith ":"%char routeSegment || bool_decide (routeSegment = targetSegment).

(** The test of a node, as a partial function on the pre-order list. *)
Definition visit (targetPath : string) (n : string * string) : option RouteInfo :=
  if route_matches targetPath n.1 then Some (info_of_node n) else None.

(** The route segments that carry the parameter marker, in order, and the
    parameter names they give. *)
Definition dynamic_segments (routePath : string) : list string :=
  List.filter (Js.startsWith ":"%char) (segments routePath).

Definition param_names (routePath : string) : list string :=
  Js.slice1 <$> dynamic_segments routePath.

(** The assignments [params[name] = value] the loop of [extractParams]
    performs, in order. *)
Fixpoint bindings (routeSegments pathSegments : list string) : list (string * string) :=
  match routeSegments with
  | [] => []
  | seg :: rest =>
      (if Js.startsWith ":"%char seg
       then [(Js.slice1 seg, default "" (head pathSegments))] else [])
      ++ bindings rest (tail pathSegments)
  end%list.





(** The names among the exports of a module that are handler capabilities. *)
Definition capability_names {Env : Type} (mod_ : RouteModule Env) : list string :=
  List.filter (λ k, bool_decide (k = "loader" ∨ k = "action")) mod_.*1.

(** A segment kept by [normalizeString]: not empty, and without a slash. *)
Definition kept_segment (x : string) : Prop :=
  x ≠ "" ∧ Js.includes "/"%char x = false.

(** ** A small configuration, for the examples *)

Definition example_routes : list RouteConfigEntry :=
  [ mkRoute (Some "api") "routes/api.tsx"
      (Some [ mkRoute (Some "users/:id") "routes/api.users.$id.ts" None ]);
    mkRoute (Some "about") "routes/about.tsx" None ].

(** A handler that answers with the bare value ["OK"]. *)
Definition example_handler : Handler unit :=
  λ _ _, Returns (ReturnsValue (VString "OK")).

(** A route module with a write handler and two exports that are not
    handlers. *)
Definition example_module : RouteModule unit :=
  [ ("action", ExportFunction example_handler);
    ("default", ExportValue (VString "component"));
    ("meta", ExportValue (VObject [])) ].

Definition example_import (routePath : string) : RouteModule unit + string :=
  inl example_module.

Definition example_init (method : option string) (params : list (string * string))
    : WorkerdRequestInit :=
  mkInit method (Some (list_to_map params)) [].

(** The route pattern with each dynamic segment replaced by the value the
    parameter bag has for its name. *)
Definition fill_pattern (params : gmap string string) (routePath : string)
    : list string :=
  (λ seg, if Js.startsWith ":"%char seg
          then default "" (params !! Js.slice1 seg) else seg)
    <$> segments routePath.

(** The shape of the stack of [normalizeString] (most recent segment
    first): ordinary segments above, and below them the [".."] segments that
    could not be resolved, which only a relative path keeps. *)
Definition canonical_stack (allowAboveRoot : bool) (stack : list string) : Prop :=
  ∃ regs dots,
    stack = (regs ++ dots)%list
    ∧ Forall (λ x, x ≠ "" ∧ x ≠ "." ∧ x ≠ "..") regs
    ∧ Forall (λ x, x = "..") dots
    ∧ (allowAboveRoot = false → dots = []).

(** The children a pathless route contributes, at its own place. *)
Definition hoisted_children (route : RouteConfigEntry) : list RouteConfigEntry :=
  default [] (children route).

(** ** The method-named wrappers *)


Section Wrappers.

Context {Env : Type}.
Variable routes : list RouteConfigEntry.
Variable __ENV_IMPORT__ : Env.
Variable __BASE_URL__ : string.
Variable import : string → RouteModule Env + string.
Variable URL_pathname : string → string.
Variable JSON_stringify : value → Completion (option string).
Variable new_Response : option string → value → Completion Response.







End Wrappers.

(** ** Database seeding *)

(** A prepared statement with its bound values:
    [DB.prepare(query).bind(...values)]. *)
Record Statement : Type := mkStatement {
  stmt_query : string;
  stmt_bindings : list value
}.

(** [DELETE FROM ${table}]. *)
Definition delete_statement (table : string) : Statement :=
  mkStatement ("DELETE FROM " ++ table) [].

(** The statement built for one row, an object given by its properties in
    enumeration order. *)
Definition insert_statement (table : string) (row : list (string * value))
    : Statement :=
  let keys := map fst row in
  let values := map snd row in
  let placeholders := Js.join ", " (map (λ _, "?") keys) in
  let query := "INSERT INTO " ++ table ++ " (" ++ Js.join ", " keys
                 ++ ") VALUES (" ++ placeholders ++ ")" in
  mkStatement query values.

Section Seeding.

(** The database binding of the environment: running a statement changes
    the database and may throw. *)
Context {DB : Type}.
Variable run : Statement → DB → DB * Completion unit.

(** The [for] loop over the rows; it ends at the first statement that
    throws. *)
Fixpoint insert_rows (table : string) (data : list (list (string * value)))
    (db : DB) : DB * Completion unit :=
  match data with
  | [] => (db, Returns ())
  | row :: rest =>
      match run (insert_statement table row) db with
      | (db', Returns _) => insert_rows table rest db'
      | (db', Throws error) => (db', Throws error)
      end
  end.

(** The result has the database, what [console.error] was given, and the
    outcome of the promise. *)
Definition seedDatabase (table : string) (data : list (list (string * value)))
    (db : DB) : DB * list (string * Exception) * Completion unit :=
  let body :=
    match run (delete_statement table) db with
    | (db', Returns _) => insert_rows table data db'
    | (db', Throws error) => (db', Throws error)
    end in
  match body with
  | (db', Returns _) => (db', [], Returns ())
  | (db', Throws error) =>
      (db', [("Failed to seed " ++ table ++ " table", error)], Throws error)
  end.

Definition seedUser (email password : string) (db : DB)
    : DB * list (string * Exception) * Completion unit :=
  seedDatabase "users" [[("email", VString email); ("password", VString password)]] db.

End Seeding.

(** A database for the examples: the queries run so far; an [INSERT]
    without bound values is refused. *)
Definition example_run (s : Statement) (db : list string)
    : list string * Completion unit :=
  if Js.startsWith "I"%char (stmt_query s) && bool_decide (length (stmt_bindings s) = 0)
  then (db, Throws (Error "no columns"))
  else ((db ++ [stmt_query s])%list, Returns ()).

(** * Properties *)

(** ** Strings and segments *)

Lemma split_nonempty sep s : Js.split sep s ≠ [].
Proof. destruct s as [|c s]; simpl; [done|]. by repeat case_match. Qed.

Lemma split_cons sep c s :
  Js.split sep (String c s) =
  if Ascii.eqb c sep then "" :: Js.split sep s
  else match Js.split sep s with
       | [] => [String c ""]
       | x :: xs => String c x :: xs
       end.
Proof. done. Qed.

Lemma replace_trailing_slash_cons c d s :
  Js.replace_trailing_slash (String c (String d s)) =
  String c (Js.replace_trailing_slash (String d s)).
Proof. done. Qed.

(** Removing the trailing slash removes at most one final empty piece. *)
Lemma split_replace_trailing_slash s :
  ∃ tail, (tail = [] ∨ tail = [""]) ∧
    Js.split "/"%char s = (Js.split "/"%char (Js.replace_trailing_slash s) ++ tail)%list.
Proof.
  induction s as [|c s IH]; [by exists []; split; [left|]|].
  destruct s as [|d s].
  - simpl. destruct (Ascii.eqb c "/") eqn:Hc.
    + exists [""]. split; [by right|done].
    + exists []. split; [by left|]. simpl. by rewrite Hc.
  - destruct IH as (tail & Htail & IH). exists tail. split; [done|].
    rewrite replace_trailing_slash_cons, (split_cons _ c (String d s)), IH.
    rewrite (split_cons _ c (Js.replace_trailing_slash _)).
    destruct (Ascii.eqb c "/"); [done|].
    destruct (Js.split "/" (Js.replace_trailing_slash (String d s))) eqn:Hs.
    + by apply split_nonempty in Hs.
    + done.
Qed.

Lemma segments_replace_trailing_slash s :
  segments (Js.replace_trailing_slash s) = segments s.
Proof.
  unfold segments, Js.filter_Boolean.
  destruct (split_replace_trailing_slash s) as (tail & Htail & ->).
  rewrite List.filter_app.
  destruct Htail as [-> | ->]; simpl; by rewrite app_nil_r.
Qed.

Lemma segments_normalizePath s : segments (normalizePath s) = segments s.
Proof.
  unfold normalizePath. case_decide as H; [by rewrite H|].
  apply segments_replace_trailing_slash.
Qed.

(** ** The matching loop, by recursion on the segments *)

Lemma matchesDynamicRoute_loop_Forall2 (pr pt rs ts : list string) :
  length pr = length pt → length rs = length ts →
  matchesDynamicRoute_loop (pr ++ rs)%list (pt ++ ts)%list
    (seq (length pr) (length rs)) = true
  ↔ Forall2 (λ r t, segment_matches r t = true) rs ts.
Proof.
  revert pr pt ts. induction rs as [|r rs IH]; intros pr pt [|t ts] Hp Hl;
    simplify_eq/=; [by split; [constructor|]|].
  rewrite (lookup_app_r pr) by lia. rewrite Hp, (lookup_app_r pt) by lia.
  rewrite <- Hp, Nat.sub_diag. simpl.
  specialize (IH (pr ++ [r])%list (pt ++ [t])%list ts).
  rewrite !length_app, <- !(assoc_L (++)) in IH. simpl in IH.
  rewrite Nat.add_1_r in IH. specialize (IH ltac:(lia) ltac:(lia)).
  rewrite Forall2_cons. unfold segment_matches at 1.
  destruct (Js.startsWith ":" r); simpl.
  - rewrite IH. by intuition.
  - rewrite <- IH. repeat case_bool_decide; simplify_eq; by intuition.
Qed.

Lemma matchesDynamicRoute_Forall2 routePath targetPath :
  matchesDynamicRoute routePath targetPath = true
  ↔ Forall2 (λ r t, segment_matches r t = true) (segments routePath) (segments targetPath).
Proof.
  unfold matchesDynamicRoute. case_bool_decide as Hlen.
  - split; [done|]. intros H%Forall2_length. done.
  - apply (matchesDynamicRoute_loop_Forall2 [] []); done.
Qed.

(** A match of line 45 is between paths with equally many segments. *)
Lemma route_matches_length targetPath fullPath :
  route_matches targetPath fullPath = true →
  length (segments (normalizePath fullPath)) = length (segments targetPath).
Proof.
  unfold route_matches. rewrite orb_true_iff, bool_decide_eq_true.
  rewrite <- (segments_normalizePath targetPath).
  intros [-> | H]; [done|].
  apply matchesDynamicRoute_Forall2 in H. by apply Forall2_length in H.
Qed.

(** ** The resolver visits the nodes in pre-order *)

Lemma RouteConfigEntry_ind (P : RouteConfigEntry → Prop) :
  (∀ p f, P (mkRoute p f None)) →
  (∀ p f ch, Forall P ch → P (mkRoute p f (Some ch))) →
  ∀ route, P route.
Proof.
  intros Hleaf Hnode. fix IH 1. intros [p f [ch|]]; [|apply Hleaf].
  apply Hnode. induction ch as [|c ch IHch]; constructor; [apply IH|apply IHch].
Qed.

Lemma first_result_app {A B} (f : A → option B) l1 l2 :
  first_result f (l1 ++ l2)%list =
  match first_result f l1 with Some r => Some r | None => first_result f l2 end.
Proof. induction l1 as [|x l1 IH]; simpl; [done|]. by destruct (f x). Qed.

Lemma first_result_flat_map {A B C} (f : B → option C) (g : A → list B) l :
  first_result f (flat_map g l) = first_result (λ x, first_result f (g x)) l.
Proof.
  induction l as [|x l IH]; simpl; [done|].
  rewrite first_result_app, IH. done.
Qed.

Lemma first_result_ext_Forall {A B} (f g : A → option B) l :
  Forall (λ x, f x = g x) l → first_result f l = first_result g l.
Proof. induction 1 as [|x l Hx _ IH]; simpl; [done|]. by rewrite Hx, IH. Qed.

Lemma first_result_find {A B} (p : A → bool) (h : A → B) l :
  first_result (λ x, if p x then Some (h x) else None) l = h <$> List.find p l.
Proof. induction l as [|x l IH]; simpl; [done|]. by destruct (p x). Qed.

Lemma findRouteFile_route_nodes targetPath route : ∀ parentPath,
  findRouteFile_route targetPath parentPath route =
  first_result (visit targetPath) (route_nodes parentPath route).
Proof.
  induction route as [p f|p f ch IH] using RouteConfigEntry_ind; intros parentPath;
    cbn [findRouteFile_route route_nodes children file first_result];
    unfold visit at 1; cbn [fst snd info_of_node];
    destruct (route_matches _ _); try done.
  rewrite first_result_flat_map. apply first_result_ext_Forall.
  eapply Forall_impl; [exact IH|]. naive_solver.
Qed.

Lemma findRouteFile_table_nodes targetPath routeConfig parentPath :
  findRouteFile targetPath routeConfig parentPath =
  first_result (visit targetPath) (table_nodes parentPath routeConfig).
Proof.
  unfold findRouteFile, table_nodes. rewrite first_result_flat_map.
  apply first_result_ext_Forall, Forall_forall. intros r _.
  apply findRouteFile_route_nodes.
Qed.

(** ** Full paths are normalised *)

Lemma split_pieces_no_separator sep s :
  Forall (λ x, Js.includes sep x = false) (Js.split sep s).
Proof.
  induction s as [|c s IH]; [by repeat constructor|].
  rewrite split_cons. destruct (Ascii.eqb c sep) eqn:Hc; [by constructor|].
  destruct (Js.split sep s) as [|x xs]; [by repeat constructor; simpl; rewrite Hc|].
  inversion_clear IH as [|?? Hx Hxs]. constructor; [|done]. simpl. by rewrite Hc, Hx.
Qed.

Lemma endsWith_includes c s : Js.includes c s = false → Js.endsWith c s = false.
Proof.
  induction s as [|d s IH]; [done|]. simpl. intros [Hd Hs]%orb_false_iff.
  destruct s; [done|]. by apply IH.
Qed.

Lemma endsWith_app c a b : b ≠ "" → Js.endsWith c (a ++ b) = Js.endsWith c b.
Proof.
  intros Hb. induction a as [|d a IH]; [done|].
  simpl. destruct (a ++ b) eqn:Hab; [|done].
  destruct a; simpl in Hab; [done|discriminate].
Qed.

Lemma replace_trailing_slash_id s :
  Js.endsWith "/"%char s = false → Js.replace_trailing_slash s = s.
Proof.
  induction s as [|c s IH]; [done|]. destruct s as [|d s].
  - simpl. by intros ->.
  - intros H. rewrite replace_trailing_slash_cons. f_equal. by apply IH.
Qed.

Lemma replace_trailing_slash_snoc s : Js.replace_trailing_slash (s ++ "/") = s.
Proof.
  induction s as [|c s IH]; [done|].
  simpl. rewrite IH. by destruct (s ++ "/") eqn:Hs; [destruct s|].
Qed.

Lemma push_segment_kept allow stack seg :
  Js.includes "/"%char seg = false →
  Forall kept_segment stack → Forall kept_segment (Path.push_segment allow stack seg).
Proof.
  intros Hseg Hstack. unfold Path.push_segment.
  repeat case_decide; try done.
  - destruct stack as [|top rest]; [destruct allow; repeat constructor; naive_solver|].
    inversion_clear Hstack. case_decide; [|done].
    destruct allow; repeat constructor; naive_solver.
  - constructor; [|done]. split; [naive_solver|done].
Qed.

Lemma join_kept l :
  Forall kept_segment l → l ≠ [] →
  Js.join "/" l ≠ "" ∧ Js.endsWith "/"%char (Js.join "/" l) = false.
Proof.
  induction 1 as [|x l [Hx Hsep] Hl IH]; [done|]. intros _.
  destruct l as [|y l].
  - simpl. split; [done|]. by apply endsWith_includes.
  - destruct IH as [Hne Hend]; [done|].
    change (Js.join "/" (x :: y :: l)) with (x ++ "/" ++ Js.join "/" (y :: l)).
    split; [by destruct x|].
    rewrite endsWith_app by done. by rewrite (endsWith_app _ "/").
Qed.

Lemma normalizeString_no_trailing_slash p allow :
  Js.endsWith "/"%char (Path.normalizeString p allow) = false.
Proof.
  unfold Path.normalizeString.
  assert (Forall kept_segment
            (fold_left (Path.push_segment allow) (Js.split "/" p) [])) as Hstack.
  { generalize (split_pieces_no_separator "/"%char p).
    generalize (Forall_nil_2 kept_segment).
    generalize (@nil string) as stack.
    induction (Js.split "/" p) as [|seg l IH]; intros stack Hstack Hl; [done|].
    inversion_clear Hl. simpl. apply IH; [|done]. by apply push_segment_kept. }
  apply Forall_rev in Hstack.
  destruct (rev _) as [|x l] eqn:Hrev; [done|].
  by apply join_kept.
Qed.

Lemma app_assoc_string (a b c : string) : (a ++ b) ++ c = a ++ b ++ c.
Proof.
  induction a as [|x a IH]; [done|].
  change (String x ((a ++ b) ++ c) = String x (a ++ b ++ c)). by rewrite IH.
Qed.

Lemma normalize_no_double_trailing_slash p :
  Js.endsWith "/"%char (Js.replace_trailing_slash (Path.normalize p)) = false.
Proof.
  unfold Path.normalize. case_decide; [done|].
  pose proof (normalizeString_no_trailing_slash p (negb (Js.startsWith "/" p))) as Hend.
  case_decide as Hempty; [by repeat case_match|].
  set (p' := Path.normalizeString p _) in *.
  assert (∀ pre, Js.endsWith "/" (pre ++ p') = false) as Hpre.
  { intros pre. by rewrite endsWith_app. }
  destruct (Js.endsWith "/" p), (Js.startsWith "/" p).
  - rewrite <- app_assoc_string, replace_trailing_slash_snoc. apply Hpre.
  - rewrite replace_trailing_slash_snoc. apply (Hpre "").
  - rewrite replace_trailing_slash_id; apply Hpre.
  - rewrite replace_trailing_slash_id; apply (Hpre "").
Qed.

Lemma join_no_double_trailing_slash a b :
  Js.endsWith "/"%char (Js.replace_trailing_slash (Path.join a b)) = false.
Proof.
  unfold Path.join. repeat case_match; try apply normalize_no_double_trailing_slash.
  done.
Qed.

(** The full path of a node is already normalised: it is the route path the
    resolver reports for the node. *)
Lemma normalizePath_fullPath_of parentPath route :
  normalizePath (fullPath_of parentPath route) = fullPath_of parentPath route.
Proof.
  unfold fullPath_of, normalizePath.
  pose proof (join_no_double_trailing_slash parentPath (path_or_empty route)) as Hend.
  destruct (Js.replace_trailing_slash (Path.join parentPath (path_or_empty route)))
    as [|c s] eqn:Hjoin; [done|].
  change (Js.or_else (String c s) "/") with (String c s).
  case_decide; [done|]. by apply replace_trailing_slash_id.
Qed.

Lemma route_nodes_normalized route : ∀ parentPath,
  Forall (λ n, normalizePath n.1 = n.1) (route_nodes parentPath route).
Proof.
  induction route as [p f|p f ch IH] using RouteConfigEntry_ind; intros parentPath;
    cbn [route_nodes children]; constructor;
    try apply normalizePath_fullPath_of; [done|].
  induction IH as [|r l Hr _ IHl]; simpl; [done|].
  apply Forall_app. split; [apply Hr|apply IHl].
Qed.

Lemma table_nodes_normalized parentPath routeConfig :
  Forall (λ n, normalizePath n.1 = n.1) (table_nodes parentPath routeConfig).
Proof.
  unfold table_nodes. induction routeConfig as [|r l IH]; simpl; [done|].
  apply Forall_app. split; [apply route_nodes_normalized|done].
Qed.

(** ** Segment counts *)

(** C6.  A route path and a target path with different numbers of non-empty
    segments never match: [matchesDynamicRoute] is false whatever the
    segments are, the test of the resolver fails on every node with that
    route path, and the resolver never returns that route path. *)
Theorem segment_count_mismatch_never_matches routePath targetPath :
  length (segments routePath) ≠ length (segments targetPath) →
  matchesDynamicRoute routePath targetPath = false
  ∧ (∀ fullPath, normalizePath fullPath = routePath →
       route_matches targetPath fullPath = false)
  ∧ (∀ routeConfig parentPath info,
       findRouteFile targetPath routeConfig parentPath = Some info →
       ri_routePath info ≠ routePath).
Proof.
  intros Hlen. split_and!.
  - unfold matchesDynamicRoute. by rewrite bool_decide_eq_true_2.
  - intros fullPath <-. apply not_true_is_false.
    intros H%route_matches_length. done.
  - intros routeConfig parentPath info.
    rewrite findRouteFile_table_nodes.
    induction (table_nodes parentPath routeConfig) as [|n l IH]; simpl; [done|].
    unfold visit at 1. destruct (route_matches targetPath n.1) eqn:Hm; [|done].
    intros [= <-] <-. by apply route_matches_length in Hm.
Qed.

Lemma segment_count_mismatch_witness :
  matchesDynamicRoute "/users/:id" "/users" = false
  ∧ (∀ fullPath, normalizePath fullPath = "/users/:id" →
       route_matches "/users" fullPath = false)
  ∧ (∀ routeConfig parentPath info,
       findRouteFile "/users" routeConfig parentPath = Some info →
       ri_routePath info ≠ "/users/:id").
Proof.
  apply (segment_count_mismatch_never_matches "/users/:id" "/users").
  vm_compute. lia.
Defined.

(** ** Traversal order *)

(** C1, as the code has it.  The resolver is depth-first and pre-order: a
    node is tested, then (only when it does not match) its children, then
    its next sibling.  The result is the file and the full path of the first
    node of the pre-order listing of the table that passes the test, and
    there is none exactly when no node passes. *)
Theorem findRouteFile_first_in_preorder targetPath routeConfig parentPath :
  findRouteFile targetPath routeConfig parentPath =
  (λ n, mkRouteInfo n.2 n.1) <$>
    List.find (λ n, route_matches targetPath n.1) (table_nodes parentPath routeConfig).
Proof.
  rewrite findRouteFile_table_nodes, <- first_result_find.
  apply first_result_ext_Forall.
  eapply Forall_impl; [apply table_nodes_normalized|].
  intros n Hn. unfold visit, info_of_node. by rewrite Hn.
Qed.

(** C1, as stated, fails: the second top-level node matches ["/a/b"], yet the
    result is the child of the first top-level node, which does not match. *)
Lemma findRouteFile_descends_before_siblings :
  let table :=
    [ mkRoute (Some "a") "a.tsx" (Some [ mkRoute (Some ":x") "a.x.tsx" None ]);
      mkRoute (Some "a/b") "ab.tsx" None ] in
  List.find (λ r, route_matches "/a/b" (fullPath_of "" r)) table
    = Some (mkRoute (Some "a/b") "ab.tsx" None)
  ∧ findRouteFile "/a/b" table "" = Some (mkRouteInfo "a.x.tsx" "a/:x").
Proof. vm_compute. done. Qed.

(** ** Parameter extraction *)

Lemma or_else_empty s : Js.or_else s "" = s.
Proof. by destruct s. Qed.

(** The index loop performs the assignments of [bindings], in order. *)
Lemma extractParams_loop_bindings (routeSegments pathSegments : list string) n :
  ∀ k (m : gmap string string), n = length (drop k routeSegments) →
  fold_left (extractParams_step routeSegments pathSegments) (seq k n) m =
  fold_left (λ m kv, set_property kv.1 kv.2 m)
    (bindings (drop k routeSegments) (drop k pathSegments)) m.
Proof.
  induction n as [|n IH]; intros k m Hn.
  - symmetry in Hn. apply length_zero_iff_nil in Hn. by rewrite Hn.
  - destruct (routeSegments !! k) as [seg|] eqn:Hseg.
    2:{ apply lookup_ge_None in Hseg. rewrite length_drop in Hn. lia. }
    rewrite (drop_S _ _ _ Hseg) in Hn |- *. simpl in Hn.
    cbn [seq fold_left bindings]. rewrite fold_left_app.
    rewrite IH by (by simplify_eq).
    replace (tail (drop k pathSegments)) with (drop 1 (drop k pathSegments))
      by (by destruct (drop k pathSegments)).
    rewrite drop_drop, Nat.add_1_r.
    f_equal. unfold extractParams_step. rewrite Hseg.
    destruct (Js.startsWith ":" seg); [|done].
    rewrite or_else_empty. simpl. do 2 f_equal.
    by rewrite head_lookup, lookup_drop, Nat.add_0_r.
Qed.

Lemma bindings_keys (routeSegments pathSegments : list string) :
  (bindings routeSegments pathSegments).*1 =
  Js.slice1 <$> List.filter (Js.startsWith ":"%char) routeSegments.
Proof.
  revert pathSegments. induction routeSegments as [|seg rest IH];
    intros pathSegments; simpl; [done|].
  rewrite fmap_app, IH. by destruct (Js.startsWith ":" seg).
Qed.

Lemma bindings_lookup (routeSegments pathSegments : list string) i seg :
  routeSegments !! i = Some seg → Js.startsWith ":"%char seg = true →
  (Js.slice1 seg, default "" (pathSegments !! i)) ∈ bindings routeSegments pathSegments.
Proof.
  revert pathSegments i. induction routeSegments as [|r rest IH];
    intros pathSegments [|i] Hi Hdyn; simplify_eq/=.
  - rewrite Hdyn, head_lookup. set_solver.
  - apply elem_of_app. right.
    replace (pathSegments !! S i) with (tail pathSegments !! i)
      by (by destruct pathSegments).
    by apply IH.
Qed.

(** Without the name [__proto__] every assignment is an insertion. *)
Lemma set_property_fold (l : list (string * string)) (m : gmap string string) :
  "__proto__" ∉ l.*1 →
  fold_left (λ m kv, set_property kv.1 kv.2 m) l m =
  fold_left (λ m kv, <[kv.1 := kv.2]> m) l m.
Proof.
  revert m. induction l as [|[k v] l IH]; intros m Hl; simpl; [done|].
  rewrite fmap_cons, not_elem_of_cons in Hl. destruct Hl as [Hk Hl].
  unfold set_property at 2. simpl. rewrite decide_False by done. by apply IH.
Qed.

(** With distinct names the order of the insertions does not matter. *)
Lemma insert_fold_list_to_map (l : list (string * string)) (m : gmap string string) :
  NoDup l.*1 →
  fold_left (λ m kv, <[kv.1 := kv.2]> m) l m = list_to_map l ∪ m.
Proof.
  revert m. induction l as [|[k v] l IH]; intros m Hl; simpl.
  - by rewrite (left_id_L ∅ (∪)).
  - rewrite fmap_cons, NoDup_cons in Hl. destruct Hl as [Hk Hl].
    rewrite IH by done. rewrite <- insert_union_l.
    symmetry. apply insert_union_r. by apply not_elem_of_list_to_map_1.
Qed.

Lemma extractParams_list_to_map routePath actualPath :
  NoDup (param_names routePath) → "__proto__" ∉ param_names routePath →
  extractParams routePath actualPath =
  list_to_map (bindings (segments routePath) (segments actualPath)).
Proof.
  intros Hnodup Hproto. unfold extractParams.
  rewrite (extractParams_loop_bindings _ _ _ 0) by done.
  rewrite !drop_0. fold (segments routePath) (segments actualPath).
  rewrite set_property_fold by (by rewrite bindings_keys).
  rewrite insert_fold_list_to_map by (by rewrite bindings_keys).
  by rewrite (right_id_L ∅ (∪)).
Qed.

(** C2, as the code has it.  When the names of the dynamic segments of the
    route are pairwise distinct and none is [__proto__], extraction returns
    exactly one entry per dynamic segment: as many entries as dynamic
    segments, keyed by the names with the marker stripped and by nothing
    else, the value being the target segment at the same position, verbatim,
    or the empty string when the target has no segment there. *)
Theorem extractParams_one_entry_per_dynamic_segment routePath actualPath :
  NoDup (param_names routePath) → "__proto__" ∉ param_names routePath →
  size (extractParams routePath actualPath) = length (dynamic_segments routePath)
  ∧ (∀ name, is_Some (extractParams routePath actualPath !! name)
             ↔ name ∈ param_names routePath)
  ∧ (∀ i seg, segments routePath !! i = Some seg →
              Js.startsWith ":"%char seg = true →
              extractParams routePath actualPath !! Js.slice1 seg
              = Some (default "" (segments actualPath !! i))).
Proof.
  intros Hnodup Hproto.
  rewrite (extractParams_list_to_map _ _ Hnodup Hproto).
  pose proof (bindings_keys (segments routePath) (segments actualPath)) as Hkeys.
  fold (dynamic_segments routePath) in Hkeys. fold (param_names routePath) in Hkeys.
  split_and!.
  - rewrite map_size_list_to_map by (by rewrite Hkeys).
    rewrite <- (length_fmap fst), Hkeys. unfold param_names. by rewrite length_fmap.
  - intros name. rewrite <- Hkeys, <- elem_of_dom, dom_list_to_map_L.
    by rewrite elem_of_list_to_set.
  - intros i seg Hseg Hdyn. apply elem_of_list_to_map_1; [by rewrite Hkeys|].
    by apply bindings_lookup.
Qed.

Lemma extractParams_one_entry_witness :
  size (extractParams "/api/users/:id/posts/:post" "/api/users/42") = 2
  ∧ extractParams "/api/users/:id/posts/:post" "/api/users/42" !! "id" = Some "42"
  ∧ extractParams "/api/users/:id/posts/:post" "/api/users/42" !! "post" = Some "".
Proof.
  destruct (extractParams_one_entry_per_dynamic_segment
              "/api/users/:id/posts/:post" "/api/users/42") as (Hsize & _ & Hval).
  - apply (bool_decide_unpack _). by vm_compute.
  - apply (bool_decide_unpack _). by vm_compute.
  - split_and!.
    + exact Hsize.
    + exact (Hval 2 ":id" eq_refl eq_refl).
    + exact (Hval 4 ":post" eq_refl eq_refl).
Defined.

(** C2, as stated, fails when a name repeats: two dynamic segments, one
    entry, and the value of the first position is lost. *)
Lemma extractParams_repeated_name :
  length (dynamic_segments "/:id/:id") = 2
  ∧ size (extractParams "/:id/:id" "/a/b") = 1
  ∧ extractParams "/:id/:id" "/a/b" !! "id" = Some "b".
Proof. vm_compute. done. Qed.

(** ** Response normalisation *)


Section NormalisationProperties.

Variable JSON_stringify : value → Completion (option string).
Variable new_Response : option string → value → Completion Response.

Local Abbreviation convert := (convertToResponse JSON_stringify new_Response).


End NormalisationProperties.


(** Where the constructor refuses its arguments, the conversion throws: a
    body (here the text [null]) with the status 204. *)
Lemma convertToResponse_null_body_status :
  convertToResponse example_JSON_stringify example_new_Response
    (ReturnsValue (VObject [("data", VNull); ("init", VObject [("status", VNumber 204)])]))
  = Throws (TypeError "Response with null body status cannot have body").
Proof. reflexivity. Qed.

(** ** The dispatcher *)

Lemma Permutation_flat_map_Forall {A B} (f g : A → list B) l :
  Forall (λ x, f x ≡ₚ g x) l → flat_map f l ≡ₚ flat_map g l.
Proof.
  induction 1 as [|x l Hx _ IH]; simpl; [done|]. by rewrite Hx, IH.
Qed.

Lemma fmap_flat_map {A B C} (h : B → C) (g : A → list B) l :
  h <$> flat_map g l = flat_map (λ x, h <$> g x) l.
Proof. induction l as [|x l IH]; simpl; [done|]. by rewrite fmap_app, IH. Qed.

Lemma Array_sort_Permutation l : Array_sort l ≡ₚ l.
Proof. apply merge_sort_Permutation. Qed.

Lemma extractAllRoutePaths_route_nodes route : ∀ parentPath,
  extractAllRoutePaths_route parentPath route ≡ₚ (route_nodes parentPath route).*1.
Proof.
  induction route as [p f|p f ch IH] using RouteConfigEntry_ind; intros parentPath;
    cbn [extractAllRoutePaths_route route_nodes children file fmap list_fmap fst];
    [done|].
  constructor. rewrite Array_sort_Permutation.
  change (list_fmap _ _ fst ?l) with (fst <$> l). rewrite fmap_flat_map.
  apply Permutation_flat_map_Forall.
  eapply Forall_impl; [exact IH|]. naive_solver.
Qed.

(** The listing holds the full path of every node, once per node. *)
Lemma extractAllRoutePaths_table_nodes routeConfig parentPath :
  extractAllRoutePaths routeConfig parentPath ≡ₚ (table_nodes parentPath routeConfig).*1.
Proof.
  unfold extractAllRoutePaths, table_nodes.
  rewrite Array_sort_Permutation, fmap_flat_map.
  apply Permutation_flat_map_Forall, Forall_forall. intros r _.
  apply extractAllRoutePaths_route_nodes.
Qed.

Lemma extractAllRoutePaths_sorted routeConfig parentPath :
  StronglySorted String.le (extractAllRoutePaths routeConfig parentPath).
Proof. apply StronglySorted_merge_sort; apply _. Qed.

Lemma split_before_first c p q :
  Js.includes c p = false →
  Js.split c (p ++ String c q) = p :: Js.split c q.
Proof.
  induction p as [|d p IH]; simpl; intros Hp.
  - by rewrite Ascii.eqb_refl.
  - apply orb_false_iff in Hp as [Hd Hp]. by rewrite Hd, IH.
Qed.

Lemma route_matches_empty_target fullPath :
  route_matches "" fullPath = route_matches "/" fullPath.
Proof.
  unfold route_matches. change (normalizePath "") with "".
  change (normalizePath "/") with "/".
  assert (∀ r, matchesDynamicRoute r "" = matchesDynamicRoute r "/") as Hdyn by done.
  rewrite Hdyn. repeat case_bool_decide; try done.
  - by replace (normalizePath fullPath) with "".
  - by replace (normalizePath fullPath) with "/".
Qed.

Lemma findRouteFile_or_else_root p routeConfig parentPath :
  findRouteFile (Js.or_else p "/") routeConfig parentPath =
  findRouteFile p routeConfig parentPath.
Proof.
  destruct p as [|c p]; [|done]. change (Js.or_else "" "/") with "/".
  rewrite !findRouteFile_table_nodes. apply first_result_ext_Forall, Forall_forall.
  intros n _. unfold visit. by rewrite route_matches_empty_target.
Qed.

Lemma extractParams_or_else_root routePath p :
  extractParams routePath (Js.or_else p "/") = extractParams routePath p.
Proof. by destruct p. Qed.

Section DispatcherProperties.

Context {Env : Type}.
Variable routes : list RouteConfigEntry.
Variable __ENV_IMPORT__ : Env.
Variable __BASE_URL__ : string.
Variable import : string → RouteModule Env + string.
Variable URL_pathname : string → string.
Variable JSON_stringify : value → Completion (option string).
Variable new_Response : option string → value → Completion Response.

Local Abbreviation prepare :=
  (prepare_call routes __ENV_IMPORT__ __BASE_URL__ import URL_pathname).
Local Abbreviation fetch :=
  (__FETCH_FUNCTION_NAME__ routes __ENV_IMPORT__ __BASE_URL__ import URL_pathname
     JSON_stringify new_Response).

(** What a successful preparation went through. *)
Lemma prepare_call_Returns input init σ c :
  prepare input init σ = Returns c →
  let targetPath := targetPath_of (url_of URL_pathname input) in
  let method := method_of input init in
  let l := fresh (dom σ) in
  ∃ mod_,
    findRouteFile targetPath routes "" = Some (call_routeInfo c)
    ∧ import (Path.join "~" (ri_file (call_routeInfo c))) = inl mod_
    ∧ select_handler method mod_ = Some (call_handler c)
    ∧ call_args c =
        mkHandlerArgs
          (build_request __BASE_URL__ input (url_of URL_pathname input) method init)
          l (createTestContext __ENV_IMPORT__ l)
    ∧ call_store c =
        <[l := default ∅ (init_params init)
               ∪ extractParams (ri_routePath (call_routeInfo c)) targetPath]> σ.
Proof.
  unfold prepare_call. intros H.
  destruct (findRouteFile _ routes "") as [routeInfo|]; [|done].
  destruct (import _) as [mod_|err] eqn:Himport; [|done].
  destruct (is_falsy_export _); [done|].
  destruct (select_handler _ mod_) as [h|] eqn:Hsel; [|done].
  injection H as <-. by exists mod_.
Qed.

(** C5.  Handler selection is total and two-valued: the methods [GET] and
    [HEAD] select the export [loader], every other method string selects
    the export [action]; and the handler the dispatcher calls is the one
    selected for the method of the invocation. *)
Theorem handler_selection_by_method :
  (∀ (method : string) (mod_ : RouteModule Env),
     ((method = "GET" ∨ method = "HEAD")
      ∧ select_handler method mod_ = assoc "loader" mod_)
     ∨ ((method ≠ "GET" ∧ method ≠ "HEAD")
        ∧ select_handler method mod_ = assoc "action" mod_))
  ∧ (∀ input init σ c,
       prepare input init σ = Returns c →
       ∃ mod_,
         import (Path.join "~" (ri_file (call_routeInfo c))) = inl mod_
         ∧ select_handler (method_of input init) mod_ = Some (call_handler c)).
Proof.
  split.
  - intros method mod_. unfold select_handler, isGetMethod.
    repeat case_bool_decide; simpl; tauto.
  - intros input init σ c H.
    destruct (prepare_call_Returns _ _ _ _ H) as (mod_ & _ & Himp & Hsel & _).
    by exists mod_.
Qed.

(** C4, as the code has it.  When the module lacks the export selected by
    the method (or has a falsy one), the invocation fails with an error
    whose message holds the name of the missing export, the requested
    path, the method, and the names of all the exports of the module, as
    [Object.keys] lists them. *)
Theorem missing_handler_error input init σ routeInfo mod_ :
  let targetPath := targetPath_of (url_of URL_pathname input) in
  let method := method_of input init in
  findRouteFile targetPath routes "" = Some routeInfo →
  import (Path.join "~" (ri_file routeInfo)) = inl mod_ →
  is_falsy_export (select_handler method mod_) = true →
  fetch input init σ =
  Throws (Error ("No " ++ (if isGetMethod method then "loader" else "action")
                 ++ " found for route: " ++ targetPath
                 ++ " (method: " ++ method
                 ++ "). Available exports: " ++ Js.join ", " mod_.*1)).
Proof.
  intros targetPath method Hroute Himport Hfalsy.
  unfold __FETCH_FUNCTION_NAME__, prepare_call.
  fold targetPath method. by rewrite Hroute, Himport, Hfalsy.
Qed.

(** C7.  When no node of the table matches the target path, the invocation
    fails with an error whose message holds the attempted path and a
    listing that has the full path of every node of the table, each node
    once, in ascending order; these full paths are normalised, so they are
    the route paths the resolver reports. *)
Theorem route_not_found_error input init σ :
  let targetPath := targetPath_of (url_of URL_pathname input) in
  (∀ n, n ∈ table_nodes "" routes → route_matches targetPath n.1 = false) →
  ∃ availableRoutes,
    fetch input init σ =
      Throws (Error ("Could not find route for path: " ++ targetPath
                     ++ ". Available routes: " ++ Js.join ", " availableRoutes))
    ∧ availableRoutes ≡ₚ (table_nodes "" routes).*1
    ∧ StronglySorted String.le availableRoutes
    ∧ Forall (λ path, normalizePath path = path) availableRoutes.
Proof.
  intros targetPath Hnone. exists (extractAllRoutePaths routes "").
  split_and!.
  - unfold __FETCH_FUNCTION_NAME__, prepare_call. fold targetPath.
    replace (findRouteFile targetPath routes "") with (@None RouteInfo); [done|].
    rewrite findRouteFile_table_nodes.
    induction (table_nodes "" routes) as [|n l IH]; simpl; [done|].
    unfold visit at 1. rewrite (Hnone n) by set_solver.
    apply IH. intros n' Hn'. apply Hnone. set_solver.
  - apply extractAllRoutePaths_table_nodes.
  - apply extractAllRoutePaths_sorted.
  - rewrite extractAllRoutePaths_table_nodes. apply Forall_fmap.
    apply table_nodes_normalized.
Qed.

(** C8.  The bag passed to the handler is the merge of the path-derived
    parameters and the caller's [init.params]: a key of [init.params] has
    the caller's value, also when the path gives the same key; any other
    key has what the path gives. *)
Theorem explicit_params_override input init σ c :
  prepare input init σ = Returns c →
  let routeParams :=
    extractParams (ri_routePath (call_routeInfo c))
      (targetPath_of (url_of URL_pathname input)) in
  let additionalParams := default ∅ (init_params init) in
  ∃ allParams : gmap string string,
    call_store c !! args_params (call_args c) = Some allParams
    ∧ (∀ k v, additionalParams !! k = Some v → allParams !! k = Some v)
    ∧ (∀ k, additionalParams !! k = None → allParams !! k = routeParams !! k).
Proof.
  intros H. destruct (prepare_call_Returns _ _ _ _ H) as (mod_ & _ & _ & _ & -> & ->).
  simpl. eexists. split; [apply lookup_insert_eq|]. split.
  - intros k v Hk. by apply lookup_union_Some_l.
  - intros k Hk. by apply lookup_union_r.
Qed.

(** C9.  The [params] argument of the handler and the [params] field of
    its context are one reference, to one new object that holds the merged
    bag. *)
Theorem handler_sees_one_parameter_bag input init σ c :
  prepare input init σ = Returns c →
  args_params (call_args c) = context_params (args_context (call_args c))
  ∧ σ !! args_params (call_args c) = None
  ∧ call_store c !! args_params (call_args c) =
      Some (default ∅ (init_params init)
            ∪ extractParams (ri_routePath (call_routeInfo c))
                (targetPath_of (url_of URL_pathname input)))
  ∧ (∀ l, l ≠ args_params (call_args c) → call_store c !! l = σ !! l).
Proof.
  intros H. destruct (prepare_call_Returns _ _ _ _ H) as (mod_ & _ & _ & _ & -> & ->).
  simpl. split_and!.
  - done.
  - apply not_elem_of_dom, is_fresh.
  - apply lookup_insert_eq.
  - intros l Hl. by apply lookup_insert_ne.
Qed.

(** C10.  For a plain-string input [p?q], resolution and parameter
    extraction see [p] alone, the part before the first ['?'], while the
    request handed to the handler is built on the base URL followed by the
    whole input, query included. *)
Theorem query_is_stripped_for_resolution_only p q init σ :
  Js.includes "?"%char p = false →
  let input := InputString (p ++ "?" ++ q) in
  let targetPath := targetPath_of (url_of URL_pathname input) in
  findRouteFile targetPath routes "" = findRouteFile p routes ""
  ∧ (∀ routePath, extractParams routePath targetPath = extractParams routePath p)
  ∧ (∀ c, prepare input init σ = Returns c →
       findRouteFile p routes "" = Some (call_routeInfo c)
       ∧ call_store c !! args_params (call_args c) =
           Some (default ∅ (init_params init)
                 ∪ extractParams (ri_routePath (call_routeInfo c)) p)
       ∧ request_info (args_request (call_args c))
           = inl (__BASE_URL__ ++ p ++ "?" ++ q)).
Proof.
  intros Hp input targetPath.
  assert (targetPath = Js.or_else p "/") as Htarget.
  { unfold targetPath, targetPath_of, input, url_of.
    change ("?" ++ q) with (String "?" q).
    by rewrite (split_before_first _ _ _ Hp). }
  rewrite Htarget. split_and!.
  - apply findRouteFile_or_else_root.
  - intros routePath. apply extractParams_or_else_root.
  - intros c H.
    destruct (prepare_call_Returns _ _ _ _ H) as (mod_ & Hroute & _ & _ & -> & ->).
    fold input targetPath in Hroute |- *. rewrite Htarget in Hroute |- *.
    rewrite findRouteFile_or_else_root in Hroute.
    rewrite extractParams_or_else_root. simpl. split_and!; [done| |done].
    apply lookup_insert_eq.
Qed.

End DispatcherProperties.

(** ** The theorems at work on the example configuration *)

Lemma missing_handler_error_witness :
  __FETCH_FUNCTION_NAME__ example_routes () "https://example.com" example_import id
      example_JSON_stringify example_new_Response
    (InputString "/api/users/42?tab=posts") (example_init None []) ∅
  = Throws (Error ("No loader found for route: /api/users/42 (method: GET). "
                   ++ "Available exports: action, default, meta")).
Proof.
  apply (missing_handler_error example_routes () "https://example.com" example_import id
           example_JSON_stringify example_new_Response
           (InputString "/api/users/42?tab=posts") (example_init None []) ∅
           (mkRouteInfo "routes/api.users.$id.ts" "api/users/:id") example_module).
  - vm_compute. reflexivity.
  - reflexivity.
  - reflexivity.
Defined.

(** C4, as stated, fails: the module has the single capability [action], and
    the message lists [default] and [meta] as well. *)
Lemma missing_handler_lists_every_export :
  capability_names example_module = ["action"]
  ∧ __FETCH_FUNCTION_NAME__ example_routes () "https://example.com" example_import id
      example_JSON_stringify example_new_Response
      (InputString "/api/users/42") (example_init None []) ∅
    = Throws (Error ("No loader found for route: /api/users/42 (method: GET). "
                     ++ "Available exports: action, default, meta"))
  ∧ __FETCH_FUNCTION_NAME__ example_routes () "https://example.com" example_import id
      example_JSON_stringify example_new_Response
      (InputString "/api/users/42") (example_init None []) ∅
    ≠ Throws (Error ("No loader found for route: /api/users/42 (method: GET). "
                     ++ "Available exports: "
                     ++ Js.join ", " (capability_names example_module))).
Proof. vm_compute. split_and!; done. Qed.

Lemma route_not_found_error_witness :
  ∃ availableRoutes,
    __FETCH_FUNCTION_NAME__ example_routes () "https://example.com" example_import id
      example_JSON_stringify example_new_Response
      (InputString "/unknown") (example_init None []) ∅
    = Throws (Error ("Could not find route for path: /unknown. Available routes: "
                     ++ Js.join ", " availableRoutes))
    ∧ availableRoutes ≡ₚ ["api"; "api/users/:id"; "about"]
    ∧ StronglySorted String.le availableRoutes
    ∧ Forall (λ path, normalizePath path = path) availableRoutes.
Proof.
  apply (route_not_found_error example_routes () "https://example.com" example_import id
           example_JSON_stringify example_new_Response
           (InputString "/unknown") (example_init None []) ∅).
  apply Forall_forall. apply (bool_decide_unpack _). by vm_compute.
Defined.

Lemma handler_selection_by_method_witness :
  select_handler "DELETE" example_module = assoc "action" example_module
  ∧ select_handler "HEAD" example_module = assoc "loader" example_module.
Proof.
  pose proof (@handler_selection_by_method unit example_routes ()
                "https://example.com" example_import id) as [Hsel _].
  split.
  - destruct (Hsel "DELETE" example_module) as [[[H|H] _]|[_ H]];
      [discriminate H|discriminate H|exact H].
  - destruct (Hsel "HEAD" example_module) as [[_ H]|[[_ H] _]];
      [exact H|by destruct H].
Defined.

Lemma explicit_params_override_witness :
  ∃ c allParams,
    prepare_call example_routes () "https://example.com" example_import id
      (InputString "/api/users/42") (example_init (Some "POST") [("id", "7")]) ∅
    = Returns c
    ∧ extractParams (ri_routePath (call_routeInfo c)) "/api/users/42" !! "id" = Some "42"
    ∧ call_store c !! args_params (call_args c) = Some allParams
    ∧ allParams !! "id" = Some "7".
Proof.
  eexists.
  destruct (explicit_params_override example_routes () "https://example.com"
              example_import id (InputString "/api/users/42")
              (example_init (Some "POST") [("id", "7")]) ∅ _ eq_refl)
    as (allParams & Hstore & Hadditional & _).
  exists allParams. split_and!.
  - reflexivity.
  - reflexivity.
  - exact Hstore.
  - apply Hadditional. reflexivity.
Defined.

Lemma handler_sees_one_parameter_bag_witness :
  ∃ c,
    prepare_call example_routes () "https://example.com" example_import id
      (InputString "/api/users/42") (example_init (Some "POST") [("tab", "posts")]) ∅
    = Returns c
    ∧ args_params (call_args c) = context_params (args_context (call_args c))
    ∧ call_store c !! args_params (call_args c)
      = Some (list_to_map [("tab", "posts")] ∪ extractParams "api/users/:id" "/api/users/42").
Proof.
  eexists. split; [reflexivity|].
  destruct (handler_sees_one_parameter_bag example_routes () "https://example.com"
              example_import id (InputString "/api/users/42")
              (example_init (Some "POST") [("tab", "posts")]) ∅ _ eq_refl)
    as (Hsame & _ & Hstore & _).
  split; [exact Hsame|exact Hstore].
Defined.

Lemma query_is_stripped_witness :
  findRouteFile
    (targetPath_of (url_of id (InputString "/api/users/42?tab=posts"))) example_routes ""
  = findRouteFile "/api/users/42" example_routes ""
  ∧ ∃ c,
      prepare_call example_routes () "https://example.com" example_import id
        (InputString "/api/users/42?tab=posts") (example_init (Some "POST") []) ∅
      = Returns c
      ∧ request_info (args_request (call_args c))
        = inl "https://example.com/api/users/42?tab=posts".
Proof.
  destruct (query_is_stripped_for_resolution_only example_routes ()
              "https://example.com" example_import id
              "/api/users/42" "tab=posts" (example_init (Some "POST") []) ∅ eq_refl)
    as (Hroute & _ & Hcall).
  split; [exact Hroute|].
  eexists. split; [reflexivity|].
  by destruct (Hcall _ eq_refl) as (_ & _ & Hreq).
Defined.


(** * Further properties of the resolver *)

Lemma segment_matches_refl s : segment_matches s s = true.
Proof. unfold segment_matches. rewrite bool_decide_eq_true_2 by done. apply orb_true_r. Qed.

Lemma matchesDynamicRoute_segments r t r' t' :
  segments r = segments r' → segments t = segments t' →
  matchesDynamicRoute r t = matchesDynamicRoute r' t'.
Proof. unfold matchesDynamicRoute, segments. by intros -> ->. Qed.

(** The comparison of line 45 adds nothing to the segment-wise test. *)
Lemma route_matches_segments targetPath fullPath :
  route_matches targetPath fullPath = matchesDynamicRoute fullPath targetPath.
Proof.
  unfold route_matches.
  rewrite (matchesDynamicRoute_segments _ _ fullPath targetPath)
    by apply segments_normalizePath.
  case_bool_decide as Heq; [|done]. simpl. symmetry.
  apply matchesDynamicRoute_Forall2.
  rewrite <- (segments_normalizePath fullPath), Heq, segments_normalizePath.
  apply Forall_Forall2_diag, Forall_forall. intros s _. apply segment_matches_refl.
Qed.

Lemma findRouteFile_Some_matches targetPath routeConfig parentPath info :
  findRouteFile targetPath routeConfig parentPath = Some info →
  matchesDynamicRoute (ri_routePath info) targetPath = true.
Proof.
  rewrite findRouteFile_table_nodes.
  induction (table_nodes parentPath routeConfig) as [|n l IH]; simpl; [done|].
  unfold visit at 1. destruct (route_matches targetPath n.1) eqn:Hm; [|done].
  intros [= <-]. simpl. rewrite route_matches_segments in Hm.
  by rewrite (matchesDynamicRoute_segments _ _ n.1 targetPath)
    by (by rewrite ?segments_normalizePath).
Qed.

(** X1.  The test the resolver applies to a node is the segment-wise match
    alone: the string comparison before it never accepts a node that the
    segment-wise match rejects. *)
Theorem exact_comparison_is_subsumed targetPath fullPath :
  route_matches targetPath fullPath = matchesDynamicRoute fullPath targetPath
  ∧ (normalizePath fullPath = normalizePath targetPath →
     matchesDynamicRoute fullPath targetPath = true).
Proof.
  split; [apply route_matches_segments|].
  intros Heq. rewrite <- route_matches_segments. unfold route_matches.
  by rewrite bool_decide_eq_true_2.
Qed.

(** X2.  Resolution reads the target through its non-empty segments only:
    two targets with the same segments (whatever their leading, trailing or
    doubled slashes) resolve alike in every table. *)
Theorem resolution_depends_on_segments_only t1 t2 routeConfig parentPath :
  segments t1 = segments t2 →
  findRouteFile t1 routeConfig parentPath = findRouteFile t2 routeConfig parentPath.
Proof.
  intros Hseg. rewrite !findRouteFile_table_nodes.
  apply first_result_ext_Forall, Forall_forall. intros n _. unfold visit.
  rewrite !route_matches_segments.
  by rewrite (matchesDynamicRoute_segments n.1 t1 n.1 t2).
Qed.

Lemma resolution_depends_on_segments_only_witness :
  findRouteFile "/api/users/42/" example_routes ""
  = findRouteFile "api//users/42" example_routes "".
Proof.
  apply (resolution_depends_on_segments_only "/api/users/42/" "api//users/42").
  reflexivity.
Defined.

(** X3.  A route path without dynamic segments matches a target exactly
    when both have the same non-empty segments, and the resolver accepts a
    node with such a full path for no other target. *)
Theorem static_route_matches_equal_segments routePath targetPath :
  dynamic_segments routePath = [] →
  (matchesDynamicRoute routePath targetPath = true
   ↔ segments routePath = segments targetPath)
  ∧ (route_matches targetPath routePath = true
     ↔ segments routePath = segments targetPath).
Proof.
  intros Hstatic. rewrite route_matches_segments.
  assert (matchesDynamicRoute routePath targetPath = true
          ↔ segments routePath = segments targetPath) as H; [|done].
  rewrite matchesDynamicRoute_Forall2. unfold dynamic_segments in Hstatic.
  generalize dependent (segments targetPath).
  induction (segments routePath) as [|r rs IH]; intros ts.
  - split; [by inversion 1|by intros <-].
  - simpl in Hstatic. destruct (Js.startsWith ":" r) eqn:Hr; [done|].
    split.
    + inversion 1 as [|?? t ts' Hm Hrest]; simplify_eq.
      unfold segment_matches in Hm. rewrite Hr in Hm. simpl in Hm.
      apply bool_decide_eq_true in Hm as <-. f_equal. by apply IH.
    + intros <-. constructor; [apply segment_matches_refl|]. by apply IH.
Qed.

Lemma static_route_matches_witness :
  (matchesDynamicRoute "/api/health" "api/health/" = true
   ↔ segments "/api/health" = segments "api/health/")
  ∧ (route_matches "api/health/" "/api/health" = true
     ↔ segments "/api/health" = segments "api/health/").
Proof.
  apply (static_route_matches_equal_segments "/api/health" "api/health/").
  reflexivity.
Defined.

(** * Further properties of parameter extraction *)

(** The bag after the first [n] iterations of the loop of [extractParams]:
    every entry comes from the last dynamic position below [n] that has its
    name, and every such position has an entry. *)
Lemma extractParams_loop_invariant (routeSegments pathSegments : list string) n :
  (n ≤ length routeSegments)%nat →
  let params := fold_left (extractParams_step routeSegments pathSegments) (seq 0 n) ∅ in
  (∀ name v, params !! name = Some v →
     ∃ i seg, i < n ∧ routeSegments !! i = Some seg
       ∧ Js.startsWith ":"%char seg = true ∧ Js.slice1 seg = name
       ∧ name ≠ "__proto__" ∧ v = default "" (pathSegments !! i)
       ∧ (∀ j seg', i < j < n → routeSegments !! j = Some seg' →
            Js.startsWith ":"%char seg' = true → Js.slice1 seg' ≠ name))
  ∧ (∀ i seg, i < n → routeSegments !! i = Some seg →
       Js.startsWith ":"%char seg = true → Js.slice1 seg ≠ "__proto__" →
       is_Some (params !! Js.slice1 seg)).
Proof.
  induction n as [|n IH]; intros Hn; cbv zeta in *.
  { simpl. split; [by intros ?? ?%lookup_empty_Some|intros; lia]. }
  destruct IH as [IHa IHb]; [lia|].
  rewrite seq_S, fold_left_app. simpl.
  set (m := fold_left _ (seq 0 n) ∅) in *.
  destruct (lookup_lt_is_Some_2 routeSegments n ltac:(lia)) as [seg Hseg].
  replace (extractParams_step routeSegments pathSegments m n)
    with (if Js.startsWith ":" seg
          then set_property (Js.slice1 seg)
                 (Js.or_else (default "" (pathSegments !! n)) "") m
          else m)
    by (unfold extractParams_step; by rewrite Hseg).
  assert (∀ name v, m !! name = Some v →
            (Js.startsWith ":" seg = true → Js.slice1 seg ≠ name) →
            ∃ i seg0, i < S n ∧ routeSegments !! i = Some seg0
              ∧ Js.startsWith ":" seg0 = true ∧ Js.slice1 seg0 = name
              ∧ name ≠ "__proto__" ∧ v = default "" (pathSegments !! i)
              ∧ (∀ j seg', i < j < S n → routeSegments !! j = Some seg' →
                   Js.startsWith ":" seg' = true → Js.slice1 seg' ≠ name)) as Hold.
  { intros name v Hm Hlast.
    destruct (IHa name v Hm) as (i & seg0 & Hi & Hs0 & Hd0 & Hn0 & Hp & Hv & Hl).
    exists i, seg0. split_and!; try done; [lia|].
    intros j seg' Hj Hs' Hd'. destruct (decide (j = n)) as [->|].
    - simplify_eq. by apply Hlast.
    - apply (Hl j seg'); [lia|done..]. }
  destruct (Js.startsWith ":" seg) eqn:Hdyn; [|split].
  2:{ intros name v Hm. by apply Hold. }
  2:{ intros i seg0 Hi Hs0 Hd0 Hp. destruct (decide (i = n)) as [->|].
      - simplify_eq; congruence.
      - apply (IHb i seg0); [lia|done..]. }
  rewrite or_else_empty. unfold set_property. case_decide as Hproto; split.
  - intros name v Hm. apply Hold; [done|]. intros _ <-.
    destruct (IHa _ _ Hm) as (? & ? & ? & ? & ? & ? & ? & ?). done.
  - intros i seg0 Hi Hs0 Hd0 Hp. destruct (decide (i = n)) as [->|].
    + simplify_eq; congruence.
    + apply (IHb i seg0); [lia|done..].
  - intros name v. rewrite lookup_insert. case_decide as Hname.
    + subst name. intros [= <-]. exists n, seg. split_and!; try done; [lia|].
      intros j seg' Hj. lia.
    + intros Hm. apply Hold; [done|]. by intros _.
  - intros i seg0 Hi Hs0 Hd0 Hp. apply lookup_insert_is_Some'.
    destruct (decide (i = n)) as [->|]; [left; by simplify_eq|].
    right. apply (IHb i seg0); [lia|done..].
Qed.

Lemma segments_kept p : Forall kept_segment (segments p).
Proof.
  unfold segments, Js.filter_Boolean.
  pose proof (split_pieces_no_separator "/"%char p) as H.
  induction H as [|x l Hx _ IH]; simpl; [done|].
  destruct x; simpl; [done|]. constructor; [done|apply IH].
Qed.

(** X4.  Whatever the route and the target, an entry of the extracted bag
    is keyed by the name of a dynamic segment of the route, never by
    [__proto__], and its value is the target segment at the position of the
    last dynamic segment with that name, or the empty string when the target
    has no segment there; there are at most as many entries as dynamic
    segments. *)
Theorem extractParams_entries_come_from_dynamic_segments routePath actualPath :
  (∀ name v, extractParams routePath actualPath !! name = Some v →
     name ≠ "__proto__"
     ∧ ∃ i seg, segments routePath !! i = Some seg
         ∧ Js.startsWith ":"%char seg = true ∧ Js.slice1 seg = name
         ∧ v = default "" (segments actualPath !! i)
         ∧ (∀ j seg', i < j → segments routePath !! j = Some seg' →
              Js.startsWith ":"%char seg' = true → Js.slice1 seg' ≠ name))
  ∧ (size (extractParams routePath actualPath)
     ≤ length (dynamic_segments routePath))%nat.
Proof.
  split.
  - intros name v Hv.
    destruct (extractParams_loop_invariant (segments routePath) (segments actualPath)
                (length (segments routePath)) ltac:(done)) as [Ha _].
    destruct (Ha name v Hv) as (i & seg & Hi & Hs & Hd & Hn & Hp & -> & Hl).
    split; [done|]. exists i, seg. split_and!; try done.
    intros j seg' Hj Hs'. apply (Hl j seg'); [|done].
    apply lookup_lt_Some in Hs'. lia.
  - unfold extractParams.
    rewrite (extractParams_loop_bindings _ _ _ 0) by done. rewrite !drop_0.
    fold (segments routePath) (segments actualPath).
    pose proof (bindings_keys (segments routePath) (segments actualPath)) as Hkeys.
    apply (f_equal length) in Hkeys. rewrite !length_fmap in Hkeys.
    fold (dynamic_segments routePath) in Hkeys. rewrite <- Hkeys.
    generalize (bindings (segments routePath) (segments actualPath)).
    intros l.
    assert (∀ m : gmap string string,
              (size (fold_left (λ m kv, set_property kv.1 kv.2 m) l m)
               ≤ size m + length l)%nat) as H;
      [|by specialize (H ∅); rewrite map_size_empty in H].
    induction l as [|[k v] l IH]; intros m; simpl; [lia|].
    etrans; [apply IH|]. unfold set_property. case_decide; [lia|].
    destruct (m !! k) eqn:Hk.
    + rewrite map_size_insert_Some by done. lia.
    + rewrite map_size_insert_None by done. lia.
Qed.

(** X5.  With a repeated name the last dynamic segment wins, and a dynamic
    segment named [__proto__] leaves no entry: a dynamic segment whose name
    no later dynamic segment repeats has the target segment at its own
    position (or the empty string) as the value of its name. *)
Theorem extractParams_last_segment_wins routePath actualPath i seg :
  segments routePath !! i = Some seg →
  Js.startsWith ":"%char seg = true →
  Js.slice1 seg ≠ "__proto__" →
  (∀ j seg', i < j → segments routePath !! j = Some seg' →
     Js.startsWith ":"%char seg' = true → Js.slice1 seg' ≠ Js.slice1 seg) →
  extractParams routePath actualPath !! Js.slice1 seg
  = Some (default "" (segments actualPath !! i)).
Proof.
  intros Hseg Hdyn Hproto Hlast.
  destruct (extractParams_loop_invariant (segments routePath) (segments actualPath)
              (length (segments routePath)) ltac:(done)) as [Ha Hb].
  pose proof (lookup_lt_Some _ _ _ Hseg) as Hi.
  destruct (Hb i seg Hi Hseg Hdyn Hproto) as [v Hv].
  change (extractParams routePath actualPath !! Js.slice1 seg = Some v) in Hv.
  rewrite Hv. f_equal.
  destruct (Ha _ _ Hv) as (i' & seg0 & Hi' & Hs0 & Hd0 & Hn0 & _ & -> & Hl).
  destruct (lt_eq_lt_dec i i') as [[Hlt| ->]|Hgt]; [|done|].
  - by destruct (Hlast i' seg0 Hlt Hs0 Hd0).
  - by destruct (Hl i seg (conj Hgt Hi) Hseg Hdyn).
Qed.

Lemma extractParams_last_segment_wins_witness :
  extractParams "/:id/posts/:id" "/7/posts/42" !! "id" = Some "42".
Proof.
  apply (extractParams_last_segment_wins "/:id/posts/:id" "/7/posts/42" 2 ":id");
    [reflexivity|reflexivity|discriminate|].
  intros j seg' Hj Hseg'. apply lookup_lt_Some in Hseg'. simpl in Hseg'. lia.
Defined.

Lemma extractParams_lookup_distinct routePath actualPath i seg :
  NoDup (param_names routePath) → "__proto__" ∉ param_names routePath →
  segments routePath !! i = Some seg → Js.startsWith ":"%char seg = true →
  extractParams routePath actualPath !! Js.slice1 seg
  = Some (default "" (segments actualPath !! i)).
Proof.
  intros Hnodup Hproto Hseg Hdyn.
  rewrite (extractParams_list_to_map _ _ Hnodup Hproto).
  apply elem_of_list_to_map_1; [by rewrite bindings_keys|].
  by apply bindings_lookup.
Qed.

(** X6.  Resolution and extraction compose to a round trip: when the
    resolver returns a route whose parameter names are distinct (and not
    [__proto__]), putting the extracted values back into the dynamic
    positions of the route path gives the segments of the target. *)
Theorem extracted_params_rebuild_target targetPath routeConfig parentPath info :
  findRouteFile targetPath routeConfig parentPath = Some info →
  NoDup (param_names (ri_routePath info)) →
  "__proto__" ∉ param_names (ri_routePath info) →
  fill_pattern (extractParams (ri_routePath info) targetPath) (ri_routePath info)
  = segments targetPath.
Proof.
  intros Hfind Hnodup Hproto.
  apply findRouteFile_Some_matches, matchesDynamicRoute_Forall2 in Hfind.
  apply list_eq. intros i. unfold fill_pattern. rewrite list_lookup_fmap.
  destruct (segments (ri_routePath info) !! i) as [seg|] eqn:Hseg; simpl.
  - destruct (Forall2_lookup_l _ _ _ _ _ Hfind Hseg) as (t & Ht & Hm).
    rewrite Ht. f_equal. unfold segment_matches in Hm.
    destruct (Js.startsWith ":" seg) eqn:Hdyn.
    + rewrite (extractParams_lookup_distinct _ _ i seg) by done. by rewrite Ht.
    + by apply bool_decide_eq_true in Hm.
  - symmetry. apply lookup_ge_None. apply lookup_ge_None in Hseg.
    by rewrite <- (Forall2_length _ _ _ Hfind).
Qed.

Lemma extracted_params_rebuild_target_witness :
  fill_pattern (extractParams "api/users/:id" "/api/users/42/") "api/users/:id"
  = segments "/api/users/42/".
Proof.
  apply (extracted_params_rebuild_target "/api/users/42/" example_routes ""
           (mkRouteInfo "routes/api.users.$id.ts" "api/users/:id")).
  - reflexivity.
  - apply (bool_decide_unpack _). by vm_compute.
  - apply (bool_decide_unpack _). by vm_compute.
Defined.

(** X7.  For a route the resolver returned, every extracted value is a
    segment of the target: it is not empty and has no slash in it. *)
Theorem extracted_values_are_target_segments targetPath routeConfig parentPath info
    name v :
  findRouteFile targetPath routeConfig parentPath = Some info →
  extractParams (ri_routePath info) targetPath !! name = Some v →
  v ∈ segments targetPath ∧ v ≠ "" ∧ Js.includes "/"%char v = false.
Proof.
  intros Hfind Hv.
  apply findRouteFile_Some_matches, matchesDynamicRoute_Forall2 in Hfind.
  destruct (extractParams_loop_invariant (segments (ri_routePath info))
              (segments targetPath) (length (segments (ri_routePath info)))
              ltac:(done)) as [Ha _].
  destruct (Ha name v Hv) as (i & seg & Hi & Hseg & _ & _ & _ & -> & _).
  destruct (Forall2_lookup_l _ _ _ _ _ Hfind Hseg) as (t & Ht & _).
  rewrite Ht. simpl.
  assert (t ∈ segments targetPath) as Hin by (by eapply list_elem_of_lookup_2).
  split; [done|].
  by apply (proj1 (Forall_forall _ _) (segments_kept targetPath)).
Qed.

Lemma extracted_values_are_target_segments_witness :
  "42" ∈ segments "/api/users/42" ∧ "42" ≠ "" ∧ Js.includes "/"%char "42" = false.
Proof.
  apply (extracted_values_are_target_segments "/api/users/42" example_routes ""
           (mkRouteInfo "routes/api.users.$id.ts" "api/users/:id") "id" "42");
    reflexivity.
Defined.

(** * Further properties of the listing and of full paths *)

Lemma Array_sort_unique l1 l2 : l1 ≡ₚ l2 → Array_sort l1 = Array_sort l2.
Proof.
  intros Hperm. apply (StronglySorted_unique String.le).
  - apply StronglySorted_merge_sort; apply _.
  - apply StronglySorted_merge_sort; apply _.
  - by rewrite !Array_sort_Permutation.
Qed.

(** X8.  The listing of route paths does not depend on the order in which
    sibling routes are declared (resolution does). *)
Theorem listing_ignores_sibling_order routeConfig1 routeConfig2 parentPath :
  routeConfig1 ≡ₚ routeConfig2 →
  extractAllRoutePaths routeConfig1 parentPath
  = extractAllRoutePaths routeConfig2 parentPath.
Proof.
  intros Hperm. unfold extractAllRoutePaths. apply Array_sort_unique.
  by apply Permutation_flat_map.
Qed.

Lemma listing_ignores_sibling_order_witness :
  extractAllRoutePaths
    [mkRoute (Some "b") "b.tsx" None; mkRoute (Some "a") "a.tsx" None] ""
  = extractAllRoutePaths
      [mkRoute (Some "a") "a.tsx" None; mkRoute (Some "b") "b.tsx" None] "".
Proof.
  apply (listing_ignores_sibling_order
           [mkRoute (Some "b") "b.tsx" None; mkRoute (Some "a") "a.tsx" None]
           [mkRoute (Some "a") "a.tsx" None; mkRoute (Some "b") "b.tsx" None] "").
  apply perm_swap.
Defined.

Lemma segments_nil_inv s :
  segments s = [] → s = "" ∨ Js.endsWith "/"%char s = true.
Proof.
  unfold segments. induction s as [|c s IH]; [by left|]. right.
  rewrite split_cons in H. destruct (Ascii.eqb c "/") eqn:Hc.
  - apply Ascii.eqb_eq in Hc as ->. simpl in H.
    destruct (IH H) as [-> | Hend]; [done|].
    simpl. destruct s; [done|exact Hend].
  - destruct (Js.split "/" s); done.
Qed.

Lemma fullPath_of_shape parentPath route :
  fullPath_of parentPath route = "/"
  ∨ (fullPath_of parentPath route ≠ ""
     ∧ Js.endsWith "/"%char (fullPath_of parentPath route) = false).
Proof.
  unfold fullPath_of.
  pose proof (join_no_double_trailing_slash parentPath (path_or_empty route)) as Hend.
  destruct (Js.replace_trailing_slash _) as [|c s]; [by left|by right].
Qed.

(** X9.  Every full path the resolver computes is non-empty and has no
    trailing slash, the root ["/"] apart; and the target ["/"] resolves to
    nothing but a node whose full path is ["/"]. *)
Theorem root_target_matches_root_path_only :
  (∀ parentPath route,
     fullPath_of parentPath route ≠ ""
     ∧ (fullPath_of parentPath route = "/"
        ∨ Js.endsWith "/"%char (fullPath_of parentPath route) = false)
     ∧ (route_matches "/" (fullPath_of parentPath route) = true
        ↔ fullPath_of parentPath route = "/"))
  ∧ (∀ routeConfig parentPath info,
       findRouteFile "/" routeConfig parentPath = Some info →
       ri_routePath info = "/").
Proof.
  assert (∀ parentPath route,
            route_matches "/" (fullPath_of parentPath route) = true
            ↔ fullPath_of parentPath route = "/") as Hroot.
  { intros parentPath route. split; [|by intros ->].
    rewrite route_matches_segments, matchesDynamicRoute_Forall2.
    change (segments "/") with (@nil string). intros H%Forall2_nil_inv_r.
    destruct (fullPath_of_shape parentPath route) as [?|[Hne Hend]]; [done|].
    destruct (segments_nil_inv _ H); congruence. }
  split.
  - intros parentPath route. split_and!; [|..|apply Hroot].
    + destruct (fullPath_of_shape parentPath route) as [->|[? _]]; done.
    + destruct (fullPath_of_shape parentPath route) as [?|[_ ?]]; auto.
  - intros routeConfig parentPath info. rewrite findRouteFile_table_nodes.
    unfold table_nodes.
    assert (∀ route parentPath,
              Forall (λ n, route_matches "/" n.1 = true → n.1 = "/")
                (route_nodes parentPath route)) as Hnodes.
    { induction route as [p f|p f ch IH] using RouteConfigEntry_ind;
        intros pp; cbn [route_nodes children]; constructor;
        try (simpl; apply Hroot); [done|].
      induction IH as [|r l Hr _ IHl]; simpl; [done|].
      apply Forall_app. split; [apply Hr|apply IHl]. }
    assert (Forall (λ n, route_matches "/" n.1 = true → n.1 = "/")
              (flat_map (route_nodes parentPath) routeConfig)) as Hall.
    { induction routeConfig as [|r l IH]; simpl; [done|].
      apply Forall_app. split; [apply Hnodes|done]. }
    induction Hall as [|n l Hn _ IH]; simpl; [done|].
    unfold visit at 1. destruct (route_matches "/" n.1) eqn:Hm; [|done].
    intros [= <-]. simpl. by rewrite Hn.
Qed.

(** ** Normalising a full path again changes nothing *)

Lemma split_no_separator c x : Js.includes c x = false → Js.split c x = [x].
Proof.
  induction x as [|d x IH]; [done|]. simpl.
  intros [Hd Hx]%orb_false_iff. by rewrite Hd, IH.
Qed.

Lemma split_join_kept l :
  Forall kept_segment l → l ≠ [] → Js.split "/"%char (Js.join "/" l) = l.
Proof.
  induction 1 as [|x l [Hx Hsep] Hl IH]; [done|]. intros _.
  destruct l as [|y l]; [by apply split_no_separator|].
  change (Js.join "/" (x :: y :: l)) with (x ++ String "/" (Js.join "/" (y :: l))).
  rewrite split_before_first by done. by rewrite IH.
Qed.

Lemma startsWith_join_kept l :
  Forall kept_segment l → Js.startsWith "/"%char (Js.join "/" l) = false.
Proof.
  destruct 1 as [|x l [Hx Hsep] Hl]; [done|].
  destruct x as [|c x]; [done|]. simpl in Hsep.
  apply orb_false_iff in Hsep as [Hc _].
  by destruct l.
Qed.

Lemma push_segment_canonical allow stack seg :
  canonical_stack allow stack → canonical_stack allow (Path.push_segment allow stack seg).
Proof.
  intros (regs & dots & -> & Hregs & Hdots & Hallow). unfold Path.push_segment.
  case_decide as Hskip; [by exists regs, dots|].
  case_decide as Hup.
  - destruct regs as [|r regs].
    + destruct dots as [|d dots]; simpl.
      * destruct allow; [|by exists [], []].
        exists [], [seg]. split_and!; try done. by repeat constructor.
      * inversion Hdots; simplify_eq. rewrite decide_True by done.
        destruct allow; [|by exists [], (".." :: dots)].
        exists [], (".." :: ".." :: dots). split_and!; try done.
        by repeat constructor.
    + inversion_clear Hregs as [|?? (? & ? & ?) Hregs']. simpl.
      rewrite decide_False by done. by exists regs, dots.
  - exists (seg :: regs), dots. split_and!; try done.
    constructor; [|done]. split_and!; naive_solver.
Qed.

Lemma fold_push_segment_canonical allow l : ∀ stack,
  canonical_stack allow stack →
  canonical_stack allow (fold_left (Path.push_segment allow) l stack).
Proof.
  induction l as [|seg l IH]; intros stack Hstack; [done|].
  simpl. by apply IH, push_segment_canonical.
Qed.

Lemma fold_push_segment_kept allow l : ∀ stack,
  Forall (λ x, Js.includes "/"%char x = false) l →
  Forall kept_segment stack →
  Forall kept_segment (fold_left (Path.push_segment allow) l stack).
Proof.
  induction l as [|seg l IH]; intros stack Hl Hstack; [done|].
  inversion_clear Hl. simpl. apply IH; [done|]. by apply push_segment_kept.
Qed.

Lemma push_segment_dots stack :
  Forall (λ x, x = "..") stack → Path.push_segment true stack ".." = ".." :: stack.
Proof. destruct 1 as [|top rest ->]; done. Qed.

Lemma fold_push_segment_dots allow dots : ∀ stack,
  Forall (λ x, x = "..") dots → (allow = false → dots = []) →
  Forall (λ x, x = "..") stack →
  fold_left (Path.push_segment allow) dots stack = (rev dots ++ stack)%list.
Proof.
  induction dots as [|d dots IH]; intros stack Hdots Hallow Hstack; [done|].
  inversion Hdots; simplify_eq. destruct allow; [|by specialize (Hallow eq_refl)].
  simpl. rewrite <- (assoc_L (++)). simpl.
  rewrite push_segment_dots by done. apply IH; [done|done|by constructor].
Qed.

Lemma fold_push_segment_regular allow regs : ∀ stack,
  Forall (λ x, x ≠ "" ∧ x ≠ "." ∧ x ≠ "..") regs →
  fold_left (Path.push_segment allow) regs stack = (rev regs ++ stack)%list.
Proof.
  induction regs as [|r regs IH]; intros stack Hregs; [done|].
  inversion_clear Hregs as [|?? (? & ? & ?) Hregs']. simpl.
  rewrite <- (assoc_L (++)). simpl. rewrite <- IH by done. f_equal.
  unfold Path.push_segment. rewrite decide_False by (by intros [?|?]).
  by rewrite decide_False.
Qed.

(** Pushing the segments of a canonical stack again rebuilds the stack. *)
Lemma fold_push_segment_again allow stack :
  canonical_stack allow stack →
  fold_left (Path.push_segment allow) (rev stack) [] = stack.
Proof.
  intros (regs & dots & -> & Hregs & Hdots & Hallow).
  rewrite rev_app_distr, fold_left_app.
  rewrite (fold_push_segment_dots allow (rev dots) []);
    [|by apply Forall_rev| |done].
  2:{ intros Ha. by rewrite (Hallow Ha). }
  rewrite fold_push_segment_regular by (by apply Forall_rev).
  by rewrite !rev_involutive, app_nil_r.
Qed.

Lemma or_else_nonempty s d : s ≠ "" → Js.or_else s d = s.
Proof. by destruct s. Qed.

(** What [fullPath_of] makes of a normalised join, normalised again. *)
Lemma normalize_full_path_again p :
  p ≠ "" →
  let full := Js.or_else (Js.replace_trailing_slash (Path.normalize p)) "/" in
  Js.or_else (Js.replace_trailing_slash (Path.normalize full)) "/" = full.
Proof.
  intros Hp. unfold Path.normalize at 1. rewrite decide_False by done.
  set (abs := Js.startsWith "/" p). set (trail := Js.endsWith "/" p).
  unfold Path.normalizeString.
  set (stack := fold_left (Path.push_segment (negb abs)) (Js.split "/" p) []).
  assert (canonical_stack (negb abs) stack) as Hcanon.
  { apply fold_push_segment_canonical. by exists [], []. }
  assert (Forall kept_segment (rev stack)) as Hkept.
  { apply Forall_rev, fold_push_segment_kept; [|done].
    apply split_pieces_no_separator. }
  case_decide as Hempty.
  { destruct abs, trail; reflexivity. }
  set (p' := Js.join "/" (rev stack)) in *.
  assert (rev stack ≠ []) as Hne.
  { intros Hnil. unfold p' in Hempty. by rewrite Hnil in Hempty. }
  destruct (join_kept _ Hkept Hne) as [_ Hend].
  assert (∀ pre, Js.endsWith "/" (pre ++ p') = false) as Hpre.
  { intros pre. by rewrite endsWith_app. }
  set (pre := if abs then "/" else "").
  assert (Js.replace_trailing_slash
            (if abs then "/" ++ (if trail then p' ++ "/" else p')
             else if trail then p' ++ "/" else p') = pre ++ p') as ->.
  { unfold pre. destruct abs, trail.
    - by rewrite <- app_assoc_string, replace_trailing_slash_snoc.
    - rewrite replace_trailing_slash_id; [done|apply Hpre].
    - by rewrite replace_trailing_slash_snoc.
    - rewrite replace_trailing_slash_id; [done|apply (Hpre "")]. }
  assert (pre ++ p' ≠ "") as Hfull.
  { unfold pre. destruct abs; [done|]. by destruct p'. }
  cbv zeta. rewrite (or_else_nonempty (pre ++ p')) by done.
  unfold Path.normalize. rewrite decide_False by done.
  assert (Js.startsWith "/" (pre ++ p') = abs) as ->.
  { unfold pre. destruct abs; [done|]. by apply startsWith_join_kept. }
  rewrite Hpre. unfold Path.normalizeString.
  assert (fold_left (Path.push_segment (negb abs)) (Js.split "/" (pre ++ p')) []
          = stack) as ->.
  { assert (Js.split "/" p' = rev stack) as Hsplit by (by apply split_join_kept).
    unfold pre. destruct abs.
    - change ("/" ++ p') with (String "/" p'). rewrite split_cons. simpl.
      rewrite Hsplit. by apply fold_push_segment_again.
    - change ("" ++ p') with p'. rewrite Hsplit. by apply fold_push_segment_again. }
  fold p'. rewrite decide_False by done.
  assert ((if abs then "/" ++ p' else p') = pre ++ p') as ->
    by (unfold pre; by destruct abs).
  rewrite replace_trailing_slash_id by apply Hpre.
  by apply or_else_nonempty.
Qed.

(** A route without a path has the full path of its parent. *)
Lemma fullPath_of_pathless parentPath route child :
  path_or_empty child = "" →
  fullPath_of (fullPath_of parentPath route) child = fullPath_of parentPath route.
Proof.
  intros Hchild. unfold fullPath_of at 1. rewrite Hchild. unfold Path.join at 1.
  assert (Js.truthy_string (fullPath_of parentPath route) = true) as ->.
  { destruct (fullPath_of_shape parentPath route) as [->|[Hne _]]; [done|].
    by destruct (fullPath_of _ _). }
  simpl. unfold fullPath_of, Path.join.
  destruct (Js.truthy_string parentPath) eqn:Hpp,
    (Js.truthy_string (path_or_empty route)) eqn:Hr; try reflexivity.
  - apply normalize_full_path_again. by destruct parentPath.
  - apply normalize_full_path_again. by destruct parentPath.
  - apply normalize_full_path_again. by destruct (path_or_empty route).
Qed.

(** X10.  A child route without a path (an index or layout route under a
    parent) is never the match: it has the full path of its parent, which
    was tested before it, and resolution goes on as if its children stood in
    its place. *)
Theorem pathless_child_is_transparent targetPath parentPath p f before child after :
  path_or_empty child = "" →
  fullPath_of (fullPath_of parentPath (mkRoute p f None)) child
    = fullPath_of parentPath (mkRoute p f None)
  ∧ findRouteFile_route targetPath parentPath
      (mkRoute p f (Some (before ++ child :: after)%list))
    = findRouteFile_route targetPath parentPath
        (mkRoute p f (Some (before ++ hoisted_children child ++ after)%list)).
Proof.
  intros Hchild. split; [by apply fullPath_of_pathless|].
  cbn [findRouteFile_route children file].
  change (fullPath_of parentPath (mkRoute p f (Some _)))
    with (fullPath_of parentPath (mkRoute p f None)).
  set (full := fullPath_of parentPath (mkRoute p f None)).
  destruct (route_matches targetPath full) eqn:Hm; [done|].
  rewrite !first_result_app. destruct (first_result _ before); [done|].
  cbn [first_result]. destruct child as [cp cf cch].
  cbn [findRouteFile_route children file hoisted_children].
  change (fullPath_of full (mkRoute cp cf cch))
    with (fullPath_of full (mkRoute cp cf None)).
  assert (fullPath_of full (mkRoute cp cf None) = full) as ->
    by (by apply fullPath_of_pathless).
  rewrite Hm. by destruct cch.
Qed.

Lemma pathless_child_is_transparent_witness :
  findRouteFile_route "/api" ""
    (mkRoute (Some "api") "layout.tsx"
       (Some [mkRoute None "index.tsx" None; mkRoute (Some "users") "users.tsx" None]))
  = findRouteFile_route "/api" ""
      (mkRoute (Some "api") "layout.tsx"
         (Some [mkRoute (Some "users") "users.tsx" None])).
Proof.
  apply (pathless_child_is_transparent "/api" "" (Some "api") "layout.tsx" []
           (mkRoute None "index.tsx" None)
           [mkRoute (Some "users") "users.tsx" None]).
  reflexivity.
Defined.

(** X11.  A top-level route without a path has the full path ["."]: the
    resolver accepts it for the targets whose only segment is ["."], so
    never for ["/"]. *)
Theorem top_level_pathless_route targetPath route :
  path_or_empty route = "" →
  fullPath_of "" route = "."
  ∧ (route_matches targetPath (fullPath_of "" route) = true
     ↔ segments targetPath = ["."])
  ∧ route_matches "/" (fullPath_of "" route) = false.
Proof.
  intros Hroute.
  assert (fullPath_of "" route = ".") as -> by (unfold fullPath_of; by rewrite Hroute).
  split_and!; [done| |done].
  rewrite route_matches_segments, matchesDynamicRoute_Forall2.
  change (segments ".") with ["."]. split.
  - inversion 1 as [|?? t ts Hm Hrest]; simplify_eq.
    apply Forall2_nil_inv_l in Hrest as ->.
    unfold segment_matches in Hm. simpl in Hm.
    by apply bool_decide_eq_true in Hm as <-.
  - intros ->. by repeat constructor.
Qed.

Lemma top_level_pathless_route_witness :
  fullPath_of "" (mkRoute None "routes/home.tsx" None) = "."
  ∧ (route_matches "/" (fullPath_of "" (mkRoute None "routes/home.tsx" None)) = true
     ↔ segments "/" = ["."])
  ∧ route_matches "/" (fullPath_of "" (mkRoute None "routes/home.tsx" None)) = false.
Proof.
  apply (top_level_pathless_route "/" (mkRoute None "routes/home.tsx" None)).
  reflexivity.
Defined.

(** * Further properties of the dispatcher *)

Lemma targetPath_of_head url :
  ∃ head rest, Js.split "?"%char url = head :: rest
    ∧ Js.includes "?"%char head = false
    ∧ targetPath_of url = Js.or_else head "/".
Proof.
  pose proof (split_pieces_no_separator "?"%char url) as Hsplit.
  unfold targetPath_of.
  destruct (Js.split "?" url) as [|head rest] eqn:Hs; [by apply split_nonempty in Hs|].
  inversion_clear Hsplit. by exists head, rest.
Qed.

(** X12.  The path used for resolution is never empty, never contains a
    ['?'], is left alone by a second stripping, and is the url itself when
    the url is non-empty and has no ['?']. *)
Theorem targetPath_has_no_query url :
  targetPath_of url ≠ ""
  ∧ Js.includes "?"%char (targetPath_of url) = false
  ∧ targetPath_of (targetPath_of url) = targetPath_of url
  ∧ (url ≠ "" → Js.includes "?"%char url = false → targetPath_of url = url).
Proof.
  destruct (targetPath_of_head url) as (head & rest & Hs & Hhead & Htarget).
  assert (targetPath_of url ≠ "") as Hne.
  { rewrite Htarget. by destruct head. }
  assert (Js.includes "?" (targetPath_of url) = false) as Hq.
  { rewrite Htarget. by destruct head. }
  split_and!; try done.
  - unfold targetPath_of at 1. rewrite split_no_separator by done. simpl.
    by apply or_else_nonempty.
  - intros Hurl Hno. unfold targetPath_of. rewrite split_no_separator by done.
    simpl. by apply or_else_nonempty.
Qed.

Section FurtherDispatcherProperties.

Context {Env : Type}.
Variable routes : list RouteConfigEntry.
Variable __ENV_IMPORT__ : Env.
Variable __BASE_URL__ : string.
Variable import : string → RouteModule Env + string.
Variable URL_pathname : string → string.
Variable JSON_stringify : value → Completion (option string).
Variable new_Response : option string → value → Completion Response.

Local Abbreviation prepare :=
  (prepare_call routes __ENV_IMPORT__ __BASE_URL__ import URL_pathname).
Local Abbreviation fetch :=
  (__FETCH_FUNCTION_NAME__ routes __ENV_IMPORT__ __BASE_URL__ import URL_pathname
     JSON_stringify new_Response).

(** X13.  When the module of the resolved route cannot be loaded, the
    invocation fails with an error whose message holds the import path (the
    file of the route joined to ["~"]) and the text of the cause; no handler
    is selected or called. *)
Theorem module_load_error input init σ routeInfo error :
  findRouteFile (targetPath_of (url_of URL_pathname input)) routes "" = Some routeInfo →
  import (Path.join "~" (ri_file routeInfo)) = inr error →
  fetch input init σ =
  Throws (Error ("Failed to import route module: " ++ Path.join "~" (ri_file routeInfo)
                 ++ ". Error: " ++ error))
  ∧ ∀ c, prepare input init σ ≠ Returns c.
Proof.
  intros Hroute Himport. unfold __FETCH_FUNCTION_NAME__, prepare_call.
  by rewrite Hroute, Himport.
Qed.

(** X14.  For a [Request] input with a method of its own, the handler is
    selected by that method, whatever [init.method] says; but the request
    handed to the handler is the clone of the input with the method of
    [init] when [init] has one. *)
Theorem request_input_method r init σ c :
  input_method r ≠ "" →
  prepare (InputReq r) init σ = Returns c →
  (∃ mod_,
     import (Path.join "~" (ri_file (call_routeInfo c))) = inl mod_
     ∧ select_handler (input_method r) mod_ = Some (call_handler c))
  ∧ request_info (args_request (call_args c)) = inr r
  ∧ request_method (args_request (call_args c))
    = default (input_method r) (init_method init).
Proof.
  intros Hmethod H.
  destruct (prepare_call_Returns _ _ _ _ _ _ _ _ _ H)
    as (mod_ & _ & Himp & Hsel & -> & _).
  assert (method_of (InputReq r) init = input_method r) as Hm.
  { unfold method_of. by rewrite !or_else_nonempty by (by rewrite ?or_else_nonempty). }
  rewrite Hm in *. split; [by exists mod_|]. done.
Qed.



End FurtherDispatcherProperties.

Lemma module_load_error_witness :
  __FETCH_FUNCTION_NAME__ example_routes () "https://example.com"
    (λ _, inr "Error: no such module") id
    example_JSON_stringify example_new_Response
    (InputString "/about") (example_init None []) ∅
  = Throws (Error ("Failed to import route module: ~/routes/about.tsx. "
                   ++ "Error: Error: no such module"))
  ∧ ∀ c, prepare_call example_routes () "https://example.com"
           (λ _, inr "Error: no such module") id
           (InputString "/about") (example_init None []) ∅ ≠ Returns c.
Proof.
  apply (module_load_error example_routes () "https://example.com"
           (λ _, inr "Error: no such module") id
           example_JSON_stringify example_new_Response
           (InputString "/about") (example_init None []) ∅
           (mkRouteInfo "routes/about.tsx" "about") "Error: no such module");
    reflexivity.
Defined.

Lemma request_input_method_witness :
  ∃ c,
    prepare_call example_routes () "https://example.com" example_import
      (λ _, "/api/users/42")
      (InputReq (mkInputRequest "https://example.com/api/users/42" "POST"))
      (example_init (Some "GET") []) ∅ = Returns c
    ∧ select_handler "POST" example_module = Some (call_handler c)
    ∧ request_method (args_request (call_args c)) = "GET".
Proof.
  eexists. split; [reflexivity|].
  destruct (request_input_method example_routes () "https://example.com" example_import
              (λ _, "/api/users/42")
              (mkInputRequest "https://example.com/api/users/42" "POST")
              (example_init (Some "GET") []) ∅ _ ltac:(discriminate) eq_refl)
    as ((mod_ & Himp & Hsel) & _ & Hmethod).
  split; [|exact Hmethod]. injection Himp as <-. exact Hsel.
Defined.


(** * Properties of the seeding helpers *)

Section SeedingProperties.

Context {DB : Type}.
Variable run : Statement → DB → DB * Completion unit.

Lemma insert_rows_app table rows1 rows2 db :
  insert_rows run table (rows1 ++ rows2)%list db =
  match insert_rows run table rows1 db with
  | (db1, Returns _) => insert_rows run table rows2 db1
  | (db1, Throws error) => (db1, Throws error)
  end.
Proof.
  revert db. induction rows1 as [|row rows1 IH]; intros db; simpl; [done|].
  destruct (run _ db) as [db' [[]|error]]; [apply IH|done].
Qed.

Lemma seedDatabase_Returns table data db db1 :
  seedDatabase run table data db = (db1, [], Returns ()) →
  ∃ db0, run (delete_statement table) db = (db0, Returns ())
         ∧ insert_rows run table data db0 = (db1, Returns ()).
Proof.
  unfold seedDatabase.
  destruct (run (delete_statement table) db) as [db0 [[]|error]]; [|done].
  destruct (insert_rows run table data db0) as [db1' [[]|error]] eqn:Hrows; [|done].
  intros [= <-]. by exists db0.
Qed.

(** X16.  Seeding fails fast and does not roll back.  When the [DELETE]
    throws, no row is inserted; when the rows before some row went in and
    the [INSERT] of that row throws, the rows after it are not attempted and
    the rows before it stay.  Either way the error is logged once and thrown
    again as it is. *)
Theorem seeding_fails_fast table :
  (∀ data db db' error,
     run (delete_statement table) db = (db', Throws error) →
     seedDatabase run table data db
     = (db', [("Failed to seed " ++ table ++ " table", error)], Throws error))
  ∧ (∀ rows1 row rows2 db db1 db2 error,
       seedDatabase run table rows1 db = (db1, [], Returns ()) →
       run (insert_statement table row) db1 = (db2, Throws error) →
       seedDatabase run table (rows1 ++ row :: rows2)%list db
       = (db2, [("Failed to seed " ++ table ++ " table", error)], Throws error)).
Proof.
  split.
  - intros data db db' error Hdelete. unfold seedDatabase. by rewrite Hdelete.
  - intros rows1 row rows2 db db1 db2 error Hrows1 Hrow.
    destruct (seedDatabase_Returns _ _ _ _ Hrows1) as (db0 & Hdelete & Hins).
    unfold seedDatabase. rewrite Hdelete, insert_rows_app, Hins. simpl.
    by rewrite Hrow.
Qed.

(** X17.  [seedUser] empties the table [users] and then inserts the one
    user, the email and the password being bound values of the statement,
    not text of the query. *)
Theorem seedUser_statements email password db db1 db2 :
  run (mkStatement "DELETE FROM users" []) db = (db1, Returns ()) →
  run (mkStatement "INSERT INTO users (email, password) VALUES (?, ?)"
         [VString email; VString password]) db1 = (db2, Returns ()) →
  seedUser run email password db = (db2, [], Returns ()).
Proof.
  intros Hdelete Hinsert. unfold seedUser, seedDatabase.
  change (delete_statement "users") with (mkStatement "DELETE FROM users" []).
  rewrite Hdelete. simpl.
  change (insert_statement "users" _)
    with (mkStatement "INSERT INTO users (email, password) VALUES (?, ?)"
            [VString email; VString password]).
  by rewrite Hinsert.
Qed.

End SeedingProperties.

Lemma seeding_fails_fast_witness :
  seedDatabase example_run "t"
    [[("a", VNumber 1)]; []; [("a", VNumber 2)]] []
  = (["DELETE FROM t"; "INSERT INTO t (a) VALUES (?)"],
     [("Failed to seed t table", Error "no columns")],
     Throws (Error "no columns")).
Proof.
  destruct (seeding_fails_fast example_run "t") as [_ H].
  apply (H [[("a", VNumber 1)]] [] [[("a", VNumber 2)]] []
           ["DELETE FROM t"; "INSERT INTO t (a) VALUES (?)"]); reflexivity.
Defined.

Lemma seedUser_statements_witness :
  seedUser example_run "a@example.com" "secret" []
  = (["DELETE FROM users"; "INSERT INTO users (email, password) VALUES (?, ?)"],
     [], Returns ()).
Proof.
  apply (seedUser_statements example_run "a@example.com" "secret" []
           ["DELETE FROM users"]); reflexivity.
Defined.

(** * Routes made of dynamic segments *)

(** X18.  A route path all of whose segments are dynamic matches exactly the
    targets with as many segments as it has, whatever they are. *)
Theorem dynamic_route_matches_by_count routePath targetPath :
  dynamic_segments routePath = segments routePath →
  (matchesDynamicRoute routePath targetPath = true
   ↔ length (segments routePath) = length (segments targetPath)).
Proof.
  intros Hdyn. rewrite matchesDynamicRoute_Forall2. split; [apply Forall2_length|].
  assert (Forall (λ seg, Js.startsWith ":"%char seg = true) (segments routePath))
    as Hall.
  { rewrite <- Hdyn. unfold dynamic_segments. apply Forall_forall.
    intros seg Hseg. apply list_elem_of_In, List.filter_In in Hseg. tauto. }
  clear Hdyn. generalize dependent (segments targetPath).
  induction Hall as [|r rs Hr _ IH]; intros [|t ts] Hlen; simplify_eq/=.
  - constructor.
  - constructor; [|by apply IH]. unfold segment_matches. by rewrite Hr.
Qed.

Lemma dynamic_route_matches_by_count_witness :
  matchesDynamicRoute "/:org/:repo" "/rocq/stdlib" = true
  ↔ length (segments "/:org/:repo") = length (segments "/rocq/stdlib").
Proof.
  apply (dynamic_route_matches_by_count "/:org/:repo" "/rocq/stdlib").
  reflexivity.
Defined.
